(** * homura: the trainer life cycle of [homura/utils/trainer.py]

    A shallow embedding of [TrainerBase] and [SupervisedTrainer]: the
    constructor with its configuration checks, the five registries of extra
    context entries, the generic loop with its callback dispatches, and
    [run] with its [try / except KeyboardInterrupt / finally].

    Python objects that the trainer only passes around (modules, optimizers,
    schedulers, callbacks, tensors) are handles or members of an abstract
    tensor engine; every call to such a collaborator leaves an [Event] in
    the output of the computation, so that "is invoked exactly once" and
    "in that order" are statements about lists of events. *)

From Stdlib Require Import ZArith List Lia.
From stdpp Require Import base option list gmap strings fin_maps.


(** ** Exceptions and results *)

Inductive Exn :=
| TypeError
| KeyError
| AttributeError
| ValueError
| NotImplementedError
| KeyboardInterrupt
| OtherError (tag : nat).

Inductive Result (A : Type) :=
| Ok (a : A)
| Raise (e : Exn).
Arguments Ok {A} a.
Arguments Raise {A} e.

Definition is_ok {A} (r : Result A) : bool :=
  match r with Ok _ => true | Raise _ => false end.

(** ** A state, error and output monad

    A computation over a state [S] returns a result or raises, leaves a new
    state, and puts out the events [E] of the calls it made. *)

Record Outcome (E S A : Type) := {
  res : Result A;
  post : S;
  out : list E
}.
Arguments res {E S A} o.
Arguments post {E S A} o.
Arguments out {E S A} o.
Arguments Build_Outcome {E S A} res post out.

Definition M (E S A : Type) : Type := S -> Outcome E S A.

Definition ret {E S A} (a : A) : M E S A :=
  fun s => {| res := Ok a; post := s; out := [] |}.

Definition raise {E S A} (e : Exn) : M E S A :=
  fun s => {| res := Raise e; post := s; out := [] |}.

Definition bind {E S A B} (m : M E S A) (k : A -> M E S B) : M E S B :=
  fun s =>
    let o := m s in
    match res o with
    | Ok a =>
        let o' := k a (post o) in
        {| res := res o'; post := post o'; out := out o ++ out o' |}
    | Raise e => {| res := Raise e; post := post o; out := out o |}
    end.

Notation "x <- m ;; k" := (bind m (fun x => k))
  (at level 20, m at level 99, k at level 200, only parsing).
Notation "m ;; k" := (bind m (fun _ => k))
  (at level 100, k at level 200, right associativity, only parsing).

Definition get {E S} : M E S S :=
  fun s => {| res := Ok s; post := s; out := [] |}.

Definition modify {E S} (f : S -> S) : M E S unit :=
  fun s => {| res := Ok tt; post := f s; out := [] |}.

(** [try: body except exn: handler] *)
Definition try_except {E S A} (body : M E S A) (catches : Exn -> bool)
    (handler : M E S A) : M E S A :=
  fun s =>
    let o := body s in
    match res o with
    | Ok a => o
    | Raise e =>
        if catches e then
          let o' := handler (post o) in
          {| res := res o'; post := post o'; out := out o ++ out o' |}
        else o
    end.

(** [try: body finally: cleanup]: the cleanup runs on every exit; an
    exception of the cleanup replaces the outcome of the body. *)
Definition try_finally {E S A} (body : M E S A) (cleanup : M E S unit) : M E S A :=
  fun s =>
    let o := body s in
    let o' := cleanup (post o) in
    {| res := match res o' with Ok _ => res o | Raise e => Raise e end;
       post := post o';
       out := out o ++ out o' |}.

(** The events of a computation seen through an embedding of events. *)
Definition map_out {E E' S A} (f : E -> E') (m : M E S A) : M E' S A :=
  fun s =>
    let o := m s in
    {| res := res o; post := post o; out := map f (out o) |}.

(** A [for] loop over a list. *)
Fixpoint for_each {E S A} (l : list A) (body : A -> M E S unit) : M E S unit :=
  match l with
  | [] => ret tt
  | x :: l' => body x ;; for_each l' body
  end.

(** A call that completes whatever the environment schedules. *)
Definition emit {E S} (ev : E) : M E S unit :=
  fun s => {| res := Ok tt; post := s; out := [ev] |}.

(** ** The external tensor engine

    [torch] is an opaque collaborator: tensors, the scalar read off a
    tensor, and the state that forward passes read and that gradient and
    optimizer calls write (parameters, gradients, optimizer slots). *)

Definition ModuleId := nat.
Definition OptimId := nat.
Definition SchedId := nat.
Definition CallbackId := nat.
Definition LossId := nat.
Definition Device := string.

Class Torch := {
  Tensor : Type;
  Scalar : Type;
  Engine : Type;
  cuda_is_available : bool;
  (* t.to(device), t.cpu(), t.data, t.item() *)
  tensor_to : Device -> Tensor -> Tensor;
  tensor_cpu : Tensor -> Tensor;
  tensor_data : Tensor -> Tensor;
  tensor_item : Tensor -> Scalar;
  (* model(input) reads the current parameters *)
  forward : Engine -> ModuleId -> Tensor -> Tensor;
  (* a loss callable applied to (output, target) *)
  apply_loss : LossId -> Tensor -> Tensor -> Tensor;
  (* optimizer.zero_grad(), loss.backward(), optimizer.step() *)
  zero_grad : OptimId -> Engine -> Engine;
  backward : Tensor -> Engine -> Engine;
  optimizer_step : OptimId -> Engine -> Engine;
  scheduler_step : SchedId -> Engine -> Engine
}.

(** The tags of [_vocabulary] ([from ._vocabulary import *]); the module is
    not among the sources, so the tags are parameters.  The context keys are
    distinct tags. *)
Class Vocabulary := {
  MODEL : string;
  STEP : string;
  NAME : string;
  TRAINER : string;
  OUTPUT : string;
  DATA : string;
  LOSS : string;
  OPTIMIZER : string;
  EPOCH : string;
  ITER_PER_EPOCH : string;
  TRAIN : string;
  TEST : string;
  tags_distinct :
    NoDup [MODEL; STEP; NAME; TRAINER; OUTPUT; DATA; LOSS; OPTIMIZER; EPOCH;
           ITER_PER_EPOCH]
}.

(** A small engine to run the definitions on: tensors and scalars are
    integers, the engine state is one integer parameter that the forward
    pass adds to its input and that an optimizer step advances by the
    gradient left by [backward]. *)
Definition toy_torch : Torch :=
  {| Tensor := Z;
     Scalar := Z;
     Engine := Z * Z;
     cuda_is_available := false;
     tensor_to := fun _ t => t;
     tensor_cpu := fun t => t;
     tensor_data := fun t => t;
     tensor_item := fun t => t;
     forward := fun e _ x => (x + e.1)%Z;
     apply_loss := fun _ output target => (output - target)%Z;
     zero_grad := fun _ e => (e.1, 0%Z);
     backward := fun loss e => (e.1, (e.2 + loss)%Z);
     optimizer_step := fun _ e => ((e.1 - e.2)%Z, e.2);
     scheduler_step := fun _ e => e |}.

Definition toy_vocabulary : Vocabulary :=
  {| MODEL := "model";
     STEP := "step";
     NAME := "name";
     TRAINER := "trainer";
     OUTPUT := "output";
     DATA := "data";
     LOSS := "loss";
     OPTIMIZER := "optimizer";
     EPOCH := "epoch";
     ITER_PER_EPOCH := "iter_per_epoch";
     TRAIN := "train";
     TEST := "test";
     tags_distinct := ltac:(apply (bool_decide_unpack _); vm_compute; exact I) |}.

Section Homura.
Context `{torch : Torch} `{vocabulary : Vocabulary}.

(** ** Attribute values *)

(** [self.model]: one module, or the [nn.ModuleDict] of a keyed model. *)
Inductive ModelAttr :=
| SingleModel (m : ModuleId)
| ModuleDict (ms : gmap string ModuleId).

(** [self.optimizer]: the [optim] of one adapter bound to its model, or the
    dict [_opt] of such. *)
Record Optim := { optim_id : OptimId; optim_model : ModelAttr }.

Inductive OptimizerAttr :=
| SingleOptim (o : Optim)
| OptimDict (os : gmap string Optim).

Record Sched := { sched_id : SchedId; sched_optimizer : OptimizerAttr }.

(** [self._scheduler] once assigned: [None], one scheduler, or a dict. *)
Inductive SchedulerAttr :=
| NoScheduler
| SingleSched (s : Sched)
| SchedDict (ss : gmap string Sched).

Inductive LossF :=
| LossCallable (f : LossId)
| LossDict (fs : list (string * LossId)).

Definition Batch := list Tensor.

(** Values found in a context mapping handed to the callbacks.  [VSelf] is
    the trainer itself ([TRAINER: self]), a reference and not a copy. *)
Inductive Value :=
| VNone
| VInt (z : Z)
| VStr (s : string)
| VScalar (x : Scalar)
| VTensor (t : Tensor)
| VData (d : Batch)
| VModel (m : ModelAttr)
| VOptimizer (o : OptimizerAttr)
| VSelf
| VObject (tag : nat).

Abbreviation Ctx := (gmap string Value).

(** ** Events: the calls made to collaborators *)

(** The calls of a per-batch operation: it works on the tensor engine, and
    the dispatcher and the trainer's counters are out of its reach. *)
Inductive EngineEvent :=
| EvForward (m : ModuleId) (input : Tensor)
| EvLossF (f : LossId) (output target : Tensor)
| EvZeroGrad (o : OptimId)
| EvBackward (loss : Tensor)
| EvOptimizerStep (o : OptimId)
| EvOther (tag : nat).

Inductive Event :=
| EvCudnnBenchmark
| EvModelTo (d : Device)
| EvSetModel (o : OptimId) (m : ModelAttr)
| EvSetOptimizer (s : SchedId) (o : OptimizerAttr)
| EvModelTrain
| EvModelEval
| EvStartIteration (ctx : Ctx)
| EvEndIteration (ctx : Ctx)
| EvStartEpoch (ctx : Ctx)
| EvEndEpoch (ctx : Ctx)
| EvEndAll (ctx : Ctx)
| EvClose
| EvPrint (s : string)
| EvSchedulerStep (s : SchedId)
| EvEngine (e : EngineEvent).

(** ** The trainer object *)

Record Trainer := {
  _device : Device;
  model : ModelAttr;
  _is_single_model : bool;
  (* [None]: the attribute was never assigned *)
  optimizer : option OptimizerAttr;
  _scheduler : option SchedulerAttr;
  loss_f : LossF;
  _callbacks : list CallbackId;
  _step : Z;
  _epoch : Z;
  _verb : bool;
  _is_train : bool;
  (* attributes stored from **kwargs *)
  kwattrs : Ctx;
  _start_iteration : Ctx;
  _end_iteration : Ctx;
  _start_epoch : Ctx;
  _end_epoch : Ctx;
  _end_all : Ctx
}.

(** ** The environment of a run

    Besides the engine and torch's grad mode, the environment schedules at
    most one fault: an exception that the [fault_at]-th collaborator call
    from now raises.  With [fault_after = false] the exception pre-empts the
    call (an interrupt delivered before the call is made); with
    [fault_after = true] the call is made and raises. *)

Record Fault := { fault_at : nat; fault_exn : Exn; fault_after : bool }.

Record Env := {
  engine : Engine;
  grad_enabled : bool;
  fault : option Fault
}.

Record World := { self : Trainer; env : Env }.

(** ** Python dictionaries *)

(** A dict display [{k1: v1, ..., kn: vn}]: entries are stored left to right,
    a later entry replacing an earlier one under the same key. *)
Definition dict_literal {V} (kvs : list (string * V)) : gmap string V :=
  foldl (fun d kv => <[kv.1 := kv.2]> d) ∅ kvs.

(** [d.update(extras)]: every entry of [extras] is stored into [d]. *)
Definition dict_update {V} (d extras : gmap string V) : gmap string V :=
  extras ∪ d.

(** ** Construction *)

Inductive ModelArg :=
| ArgModule (m : ModuleId)
| ArgModelDict (d : list (string * ModuleId))
| ArgModelOther.

Inductive OptimizerArg :=
| ArgOptimizer (o : OptimId)
| ArgOptimizerDict (d : list (string * OptimId))
| ArgOptimizerOther.

Inductive SchedulerArg :=
| ArgSchedulerNone
| ArgScheduler (s : SchedId)
| ArgSchedulerDict (d : list (string * SchedId))
| ArgSchedulerOther.

Inductive CallbacksArg :=
| ArgCallbackList (l : list CallbackId)
| ArgCallback (c : option CallbackId).

Record InitArgs := {
  arg_model : ModelArg;
  arg_optimizer : OptimizerArg;
  arg_loss_f : LossF;
  arg_callbacks : CallbacksArg;
  arg_scheduler : SchedulerArg;
  arg_verb : bool;
  arg_use_cudnn_bnenchmark : bool;
  arg_kwargs : list (string * Value);
  (* names found on the class of [self] besides those that [TrainerBase]
     defines: those of [object] and of a subclass *)
  arg_class_names : list string
}.

Definition is_model_dict (a : ModelArg) : bool :=
  match a with ArgModelDict _ => true | _ => false end.

Definition is_optimizer_dict (a : OptimizerArg) : bool :=
  match a with ArgOptimizerDict _ => true | _ => false end.

Definition is_scheduler_dict (a : SchedulerArg) : bool :=
  match a with ArgSchedulerDict _ => true | _ => false end.

(** What [nn.ModuleDict] is applied to.  Line 40 reads
    [nn.ModuleDict(dict)]: the argument is the builtin class [dict], not the
    parameter [model]. *)
Inductive ModuleDictArg :=
| BuiltinDictClass
| DictObject (d : list (string * ModuleId)).

(** torch's [ModuleDict.__init__] passes its argument to [update], which
    raises [TypeError] unless the argument is iterable; a class object is
    not. *)
Definition nn_ModuleDict (modules : ModuleDictArg)
    : M Event unit (gmap string ModuleId) :=
  match modules with
  | BuiltinDictClass => raise TypeError
  | DictObject d => ret (dict_literal d)
  end.

(** [self.model._modules] *)
Definition _modules (m : ModelAttr) : gmap string ModuleId :=
  match m with
  | ModuleDict ms => ms
  | SingleModel _ => ∅
  end.

(** Lines 60-65: [for k, opt in optimizer.items(): ...] *)
Fixpoint bind_optimizers (modules : gmap string ModuleId)
    (items : list (string * OptimId)) (_opt : gmap string Optim)
    : M Event unit (gmap string Optim) :=
  match items with
  | [] => ret _opt
  | (k, opt) :: rest =>
      match modules !! k with
      | None => raise KeyError
      | Some m =>
          emit (EvSetModel opt (SingleModel m)) ;;
          bind_optimizers modules rest
            (<[k := {| optim_id := opt; optim_model := SingleModel m |}]> _opt)
      end
  end.

(** [self.optimizer.get(k)], reached only when [self.optimizer] is [_opt]. *)
Definition optimizer_get (o : option OptimizerAttr) (k : string)
    : option Optim :=
  match o with
  | Some (OptimDict os) => os !! k
  | _ => None
  end.

(** Lines 78-83: [for k, schdlr in scheduler.items(): ...] *)
Fixpoint bind_schedulers (optimizer : option OptimizerAttr)
    (items : list (string * SchedId)) (_schdlr : gmap string Sched)
    : M Event unit (gmap string Sched) :=
  match items with
  | [] => ret _schdlr
  | (k, schdlr) :: rest =>
      match optimizer_get optimizer k with
      | None => raise KeyError
      | Some opt =>
          emit (EvSetOptimizer schdlr (SingleOptim opt)) ;;
          bind_schedulers optimizer rest
            (<[k := {| sched_id := schdlr;
                       sched_optimizer := SingleOptim opt |}]> _schdlr)
      end
  end.

(** Modelled from the spec: [CallbackList(callbacks)] of [.callbacks], which
    is not among the sources: a single callback (or none) is wrapped into a
    dispatcher. *)
Definition CallbackList (c : option CallbackId) : list CallbackId :=
  match c with
  | Some c => [c]
  | None => []
  end.

(** The names that [TrainerBase] defines in its class body. *)
Definition TrainerBase_names : list string :=
  ["__init__"; "iteration"; "register_start_iteration";
   "register_end_iteration"; "register_start_epoch"; "register_end_epoch";
   "register_end_all"; "_iteration"; "_loop"; "train"; "test"; "run";
   "_exit"; "is_train"; "to_device"].

(** The instance attributes assigned by lines 33-97, given whether
    [self.optimizer] and [self._scheduler] were assigned. *)
Definition assigned_names (opt_set sched_set : bool) : list string :=
  ["_device"; "model"; "_is_single_model"] ++
  (if opt_set then ["optimizer"] else []) ++
  (if sched_set then ["_scheduler"] else []) ++
  ["loss_f"; "_callbacks"; "_step"; "_epoch"; "_verb"; "_is_train"].

(** [hasattr(self, k)] inside the loop of lines 100-103; [attrs] holds the
    keyword arguments stored so far. *)
Definition hasattr (class_names : list string) (opt_set sched_set : bool)
    (attrs : Ctx) (k : string) : bool :=
  bool_decide (k ∈ TrainerBase_names ++ class_names)
  || bool_decide (k ∈ assigned_names opt_set sched_set)
  || bool_decide (is_Some (attrs !! k)).

(** Lines 100-103: [for k, v in kwargs.items(): ...] *)
Fixpoint set_kwargs (class_names : list string) (opt_set sched_set : bool)
    (kwargs : list (string * Value)) (attrs : Ctx) : M Event unit Ctx :=
  match kwargs with
  | [] => ret attrs
  | (k, v) :: rest =>
      if hasattr class_names opt_set sched_set attrs k
      then raise AttributeError
      else set_kwargs class_names opt_set sched_set rest (<[k := v]> attrs)
  end.

(** The five registries are assigned after the keyword arguments (lines
    105-109), replacing an attribute that a keyword argument stored under
    one of their names. *)
Definition registry_names : list string :=
  ["_start_iteration"; "_end_iteration"; "_start_epoch"; "_end_epoch";
   "_end_all"].

Definition TrainerBase_init (a : InitArgs) : M Event unit Trainer :=
  let device := if cuda_is_available then "cuda" else "cpu" in
  (* set model(s) *)
  model <- match arg_model a with
           | ArgModule m => ret (SingleModel m)
           | ArgModelDict _ =>
               ms <- nn_ModuleDict BuiltinDictClass ;; ret (ModuleDict ms)
           | ArgModelOther => raise TypeError
           end ;;
  (if cuda_is_available then
     (if arg_use_cudnn_bnenchmark a then emit EvCudnnBenchmark else ret tt) ;;
     emit (EvModelTo device)
   else ret tt) ;;
  (* set optimizer(s) *)
  optimizer <- match arg_optimizer a with
               | ArgOptimizer o =>
                   emit (EvSetModel o model) ;;
                   ret (Some (SingleOptim
                                {| optim_id := o; optim_model := model |}))
               | ArgOptimizerDict d =>
                   (if is_model_dict (arg_model a) then ret tt
                    else raise TypeError) ;;
                   _opt <- bind_optimizers (_modules model) d ∅ ;;
                   ret (Some (OptimDict _opt))
               | ArgOptimizerOther => ret None
               end ;;
  (* set scheduler(s) *)
  scheduler <- match arg_scheduler a with
               | ArgSchedulerNone => ret (Some NoScheduler)
               | ArgScheduler s =>
                   (* reads [self.optimizer] *)
                   o <- match optimizer with
                        | Some o => ret o
                        | None => raise AttributeError
                        end ;;
                   emit (EvSetOptimizer s o) ;;
                   ret (Some (SingleSched
                                {| sched_id := s; sched_optimizer := o |}))
               | ArgSchedulerDict d =>
                   (if is_optimizer_dict (arg_optimizer a) then ret tt
                    else raise TypeError) ;;
                   _schdlr <- bind_schedulers optimizer d ∅ ;;
                   ret (Some (SchedDict _schdlr))
               | ArgSchedulerOther => ret None
               end ;;
  (* set callback(s) *)
  let callbacks := match arg_callbacks a with
                   | ArgCallbackList l => l
                   | ArgCallback c => CallbackList c
                   end in
  (* set kwargs *)
  attrs <- set_kwargs (arg_class_names a) (bool_decide (is_Some optimizer))
             (bool_decide (is_Some scheduler)) (arg_kwargs a) ∅ ;;
  ret {| _device := device;
         model := model;
         _is_single_model := negb (is_model_dict (arg_model a));
         optimizer := optimizer;
         _scheduler := scheduler;
         loss_f := arg_loss_f a;
         _callbacks := callbacks;
         _step := 0;
         _epoch := 0;
         _verb := arg_verb a;
         _is_train := true;
         kwattrs := filter (fun kv => kv.1 ∉ registry_names) attrs;
         _start_iteration := ∅;
         _end_iteration := ∅;
         _start_epoch := ∅;
         _end_epoch := ∅;
         _end_all := ∅ |}.

Definition SupervisedTrainer_init (a : InitArgs) : M Event unit Trainer :=
  if is_model_dict (arg_model a) then raise TypeError
  else TrainerBase_init a.

(** ** Calls made while the trainer runs *)

Definition set_fault (f : option Fault) (e : Env) : Env :=
  {| engine := engine e; grad_enabled := grad_enabled e; fault := f |}.

Definition set_engine (g : Engine) (e : Env) : Env :=
  {| engine := g; grad_enabled := grad_enabled e; fault := fault e |}.

Definition set_grad_enabled (b : bool) (e : Env) : Env :=
  {| engine := engine e; grad_enabled := b; fault := fault e |}.

(** One call to a collaborator, subject to the scheduled fault. *)
Definition call {E} (ev : E) : M E Env unit :=
  fun e =>
    match fault e with
    | None => {| res := Ok tt; post := e; out := [ev] |}
    | Some f =>
        match fault_at f with
        | O => {| res := Raise (fault_exn f);
                  post := set_fault None e;
                  out := if fault_after f then [ev] else [] |}
        | S n => {| res := Ok tt;
                    post := set_fault
                              (Some {| fault_at := n;
                                       fault_exn := fault_exn f;
                                       fault_after := fault_after f |}) e;
                    out := [ev] |}
        end
    end.

Definition update_engine {E} (f : Engine -> Engine) : M E Env unit :=
  modify (fun e => set_engine (f (engine e)) e).

(** Code that reads the trainer and acts on the environment only. *)
Definition lift {A} (m : Trainer -> M Event Env A) : M Event World A :=
  fun w =>
    let o := m (self w) (env w) in
    {| res := res o;
       post := {| self := self w; env := post o |};
       out := out o |}.

Definition update_self (f : Trainer -> Trainer) : M Event World unit :=
  modify (fun w => {| self := f (self w); env := env w |}).

(** [with torch.no_grad():] and [with torch.enable_grad():] set the grad
    mode for their block and restore the previous mode on every exit. *)
Definition with_grad {A} (b : bool) (body : M Event World A) : M Event World A :=
  fun w =>
    let prev := grad_enabled (env w) in
    let o := body {| self := self w; env := set_grad_enabled b (env w) |} in
    {| res := res o;
       post := {| self := self (post o);
                  env := set_grad_enabled prev (env (post o)) |};
       out := out o |}.

(** Reading an attribute that may never have been assigned. *)
Definition getattr {A} (field : Trainer -> option A) : M Event World A :=
  fun w =>
    match field (self w) with
    | Some a => ret a w
    | None => raise AttributeError w
    end.

(** ** Assignments to the trainer's attributes *)

Definition set__step (z : Z) (t : Trainer) : Trainer :=
  {| _device := _device t; model := model t;
     _is_single_model := _is_single_model t; optimizer := optimizer t;
     _scheduler := _scheduler t; loss_f := loss_f t;
     _callbacks := _callbacks t; _step := z; _epoch := _epoch t;
     _verb := _verb t; _is_train := _is_train t; kwattrs := kwattrs t;
     _start_iteration := _start_iteration t;
     _end_iteration := _end_iteration t; _start_epoch := _start_epoch t;
     _end_epoch := _end_epoch t; _end_all := _end_all t |}.

Definition set__epoch (z : Z) (t : Trainer) : Trainer :=
  {| _device := _device t; model := model t;
     _is_single_model := _is_single_model t; optimizer := optimizer t;
     _scheduler := _scheduler t; loss_f := loss_f t;
     _callbacks := _callbacks t; _step := _step t; _epoch := z;
     _verb := _verb t; _is_train := _is_train t; kwattrs := kwattrs t;
     _start_iteration := _start_iteration t;
     _end_iteration := _end_iteration t; _start_epoch := _start_epoch t;
     _end_epoch := _end_epoch t; _end_all := _end_all t |}.

Definition set__is_train (b : bool) (t : Trainer) : Trainer :=
  {| _device := _device t; model := model t;
     _is_single_model := _is_single_model t; optimizer := optimizer t;
     _scheduler := _scheduler t; loss_f := loss_f t;
     _callbacks := _callbacks t; _step := _step t; _epoch := _epoch t;
     _verb := _verb t; _is_train := b; kwattrs := kwattrs t;
     _start_iteration := _start_iteration t;
     _end_iteration := _end_iteration t; _start_epoch := _start_epoch t;
     _end_epoch := _end_epoch t; _end_all := _end_all t |}.

Definition set__start_iteration (d : Ctx) (t : Trainer) : Trainer :=
  {| _device := _device t; model := model t;
     _is_single_model := _is_single_model t; optimizer := optimizer t;
     _scheduler := _scheduler t; loss_f := loss_f t;
     _callbacks := _callbacks t; _step := _step t; _epoch := _epoch t;
     _verb := _verb t; _is_train := _is_train t; kwattrs := kwattrs t;
     _start_iteration := d;
     _end_iteration := _end_iteration t; _start_epoch := _start_epoch t;
     _end_epoch := _end_epoch t; _end_all := _end_all t |}.

Definition set__end_iteration (d : Ctx) (t : Trainer) : Trainer :=
  {| _device := _device t; model := model t;
     _is_single_model := _is_single_model t; optimizer := optimizer t;
     _scheduler := _scheduler t; loss_f := loss_f t;
     _callbacks := _callbacks t; _step := _step t; _epoch := _epoch t;
     _verb := _verb t; _is_train := _is_train t; kwattrs := kwattrs t;
     _start_iteration := _start_iteration t;
     _end_iteration := d; _start_epoch := _start_epoch t;
     _end_epoch := _end_epoch t; _end_all := _end_all t |}.

Definition set__start_epoch (d : Ctx) (t : Trainer) : Trainer :=
  {| _device := _device t; model := model t;
     _is_single_model := _is_single_model t; optimizer := optimizer t;
     _scheduler := _scheduler t; loss_f := loss_f t;
     _callbacks := _callbacks t; _step := _step t; _epoch := _epoch t;
     _verb := _verb t; _is_train := _is_train t; kwattrs := kwattrs t;
     _start_iteration := _start_iteration t;
     _end_iteration := _end_iteration t; _start_epoch := d;
     _end_epoch := _end_epoch t; _end_all := _end_all t |}.

Definition set__end_epoch (d : Ctx) (t : Trainer) : Trainer :=
  {| _device := _device t; model := model t;
     _is_single_model := _is_single_model t; optimizer := optimizer t;
     _scheduler := _scheduler t; loss_f := loss_f t;
     _callbacks := _callbacks t; _step := _step t; _epoch := _epoch t;
     _verb := _verb t; _is_train := _is_train t; kwattrs := kwattrs t;
     _start_iteration := _start_iteration t;
     _end_iteration := _end_iteration t; _start_epoch := _start_epoch t;
     _end_epoch := d; _end_all := _end_all t |}.

Definition set__end_all (d : Ctx) (t : Trainer) : Trainer :=
  {| _device := _device t; model := model t;
     _is_single_model := _is_single_model t; optimizer := optimizer t;
     _scheduler := _scheduler t; loss_f := loss_f t;
     _callbacks := _callbacks t; _step := _step t; _epoch := _epoch t;
     _verb := _verb t; _is_train := _is_train t; kwattrs := kwattrs t;
     _start_iteration := _start_iteration t;
     _end_iteration := _end_iteration t; _start_epoch := _start_epoch t;
     _end_epoch := _end_epoch t; _end_all := d |}.

(** ** Registration of extra context entries (lines 120-133) *)

Definition register_start_iteration (name : string) (data : Value)
    : M Event World unit :=
  update_self
    (fun t => set__start_iteration (<[name := data]> (_start_iteration t)) t).

Definition register_end_iteration (name : string) (data : Value)
    : M Event World unit :=
  update_self
    (fun t => set__end_iteration (<[name := data]> (_end_iteration t)) t).

Definition register_start_epoch (name : string) (data : Value)
    : M Event World unit :=
  update_self
    (fun t => set__start_epoch (<[name := data]> (_start_epoch t)) t).

Definition register_end_epoch (name : string) (data : Value)
    : M Event World unit :=
  update_self
    (fun t => set__end_epoch (<[name := data]> (_end_epoch t)) t).

Definition register_end_all (name : string) (data : Value) : M Event World unit :=
  update_self (fun t => set__end_all (<[name := data]> (_end_all t)) t).

(** ** The per-batch operation *)

(** What [self.iteration(data)] hands back: [None], or a sequence. *)
Inductive Returned :=
| RetNone
| RetTuple (ts : list Tensor).

(** An implementation of [iteration] reads the trainer and acts on the
    environment. *)
Definition Iteration : Type := Trainer -> Batch -> M EngineEvent Env Returned.

(** Lines 111-118: the body of the abstract method is its docstring. *)
Definition TrainerBase_iteration : Iteration :=
  fun _ _ => ret RetNone.

(** Lines 219-226: [to_device] *)
Definition to_device (t : Trainer) (data : Batch) : list Tensor :=
  map (tensor_to (_device t)) data.

(** Lines 238-246: [SupervisedTrainer.iteration] *)
Definition SupervisedTrainer_iteration : Iteration :=
  fun t data =>
    match to_device t data with
    | [input; target] =>
        m <- match model t with
             | SingleModel m => ret m
             | ModuleDict _ => raise NotImplementedError
             end ;;
        call (EvForward m input) ;;
        e <- get ;;
        let output := forward (engine e) m input in
        f <- match loss_f t with
             | LossCallable f => ret f
             | LossDict _ => raise TypeError
             end ;;
        call (EvLossF f output target) ;;
        let loss := apply_loss f output target in
        (if _is_train t then
           o <- match optimizer t with
                | Some (SingleOptim o) => ret (optim_id o)
                | _ => raise AttributeError
                end ;;
           call (EvZeroGrad o) ;;
           update_engine (zero_grad o) ;;
           call (EvBackward loss) ;;
           update_engine (backward loss) ;;
           call (EvOptimizerStep o) ;;
           update_engine (optimizer_step o)
         else ret tt) ;;
        ret (RetTuple [loss; output])
    | _ => raise ValueError
    end.

(** [loss, output = ...] *)
Definition unpack_pair {E S} (r : Returned) : M E S (Tensor * Tensor) :=
  match r with
  | RetNone => raise TypeError
  | RetTuple [a; b] => ret (a, b)
  | RetTuple _ => raise ValueError
  end.

(** Modelled from the spec: [TQDMWrapper] of [.reporter.wrapper], which is
    not among the sources: it decorates the data source with a progress
    report and preserves the order and the number of its batches. *)
Definition TQDMWrapper (data_loader : list Batch) : list Batch := data_loader.

(** ** Classes and instantiation *)

Inductive TrainerClass :=
| TrainerBase
| SupervisedTrainer.

(** The methods marked [@abstractmethod] that the class does not override. *)
Definition abstract_methods (cls : TrainerClass) : list string :=
  match cls with
  | TrainerBase => ["iteration"]
  | SupervisedTrainer => []
  end.

(** [cls(...)]: with [metaclass=ABCMeta], a class that still has abstract
    methods is not instantiated; [__init__] is not run. *)
Definition new (cls : TrainerClass) (a : InitArgs) : M Event unit Trainer :=
  match abstract_methods cls with
  | [] =>
      match cls with
      | TrainerBase => TrainerBase_init a
      | SupervisedTrainer => SupervisedTrainer_init a
      end
  | _ :: _ => raise TypeError
  end.

(** The [iteration] that an object of the class resolves to. *)
Definition iteration_of (cls : TrainerClass) : Iteration :=
  match cls with
  | TrainerBase => TrainerBase_iteration
  | SupervisedTrainer => SupervisedTrainer_iteration
  end.

(** ** The life cycle *)

Section Lifecycle.
Variable iteration : Iteration.

(** Lines 135-153 *)
Definition _iteration (data : Batch) (name : string) : M Event World unit :=
  with_grad false
    (lift (fun t =>
       let _start_iteration' :=
         dict_literal [(MODEL, VModel (model t));
                       (STEP, VInt (_step t));
                       (NAME, VStr name);
                       (TRAINER, VSelf)] in
       call (EvStartIteration
               (dict_update _start_iteration' (_start_iteration t))))) ;;
  r <- lift (fun t => map_out EvEngine (iteration t data)) ;;
  lo <- unpack_pair r ;;
  with_grad false
    (lift (fun t =>
       let _end_iteration' :=
         dict_literal [(OUTPUT, VTensor (tensor_cpu lo.2));
                       (DATA, VData data);
                       (MODEL, VModel (model t));
                       (LOSS, VScalar (tensor_item (tensor_data lo.1)));
                       (STEP, VInt (_step t));
                       (NAME, VStr name);
                       (TRAINER, VSelf)] in
       call (EvEndIteration
               (dict_update _end_iteration' (_end_iteration t))))).

(** Lines 155-178 *)
Definition _loop (data_loader : list Batch) (name : string)
    : M Event World unit :=
  with_grad false
    (lift (fun t =>
       let _start_epoch' :=
         dict_literal [(MODEL, VModel (model t));
                       (NAME, VStr name);
                       (TRAINER, VSelf)] in
       call (EvStartEpoch (dict_update _start_epoch' (_start_epoch t))))) ;;
  w <- get ;;
  let data_loader :=
    if _verb (self w) then TQDMWrapper data_loader else data_loader in
  for_each data_loader
    (fun data =>
       _iteration data name ;;
       w <- get ;;
       if _is_train (self w)
       then update_self (fun t => set__step (_step t + 1) t)
       else ret tt) ;;
  with_grad false
    (o <- getattr optimizer ;;
     lift (fun t =>
       let _end_epoch' :=
         dict_literal [(MODEL, VModel (model t));
                       (OPTIMIZER, VOptimizer o);
                       (EPOCH, VInt (_epoch t));
                       (NAME, VStr name);
                       (ITER_PER_EPOCH, VInt (Z.of_nat (length data_loader)));
                       (TRAINER, VSelf)] in
       call (EvEndEpoch (dict_update _end_epoch' (_end_epoch t))))).

(** Lines 180-187 *)
Definition train (data_loader : list Batch) : M Event World unit :=
  update_self (set__is_train true) ;;
  lift (fun _ => call EvModelTrain) ;;
  with_grad true (_loop data_loader TRAIN) ;;
  s <- getattr _scheduler ;;
  match s with
  | NoScheduler => ret tt
  | SingleSched s =>
      lift (fun _ => call (EvSchedulerStep (sched_id s)) ;;
                     update_engine (scheduler_step (sched_id s)))
  | SchedDict _ => raise AttributeError
  end ;;
  update_self (fun t => set__epoch (_epoch t + 1) t).

(** Lines 189-193 *)
Definition test (data_loader : list Batch) (name : string)
    : M Event World unit :=
  update_self (set__is_train false) ;;
  lift (fun _ => call EvModelEval) ;;
  with_grad false (_loop data_loader name).

(** Lines 207-213 *)
Definition _exit : M Event World unit :=
  with_grad false
    (o <- getattr optimizer ;;
     lift (fun t =>
       let _end_all' :=
         dict_literal [(MODEL, VModel (model t));
                       (OPTIMIZER, VOptimizer o);
                       (TRAINER, VSelf)] in
       call (EvEndAll (dict_update _end_all' (_end_all t))))).

Definition is_KeyboardInterrupt (e : Exn) : bool :=
  match e with KeyboardInterrupt => true | _ => false end.

Definition interrupted : string := String (Ascii.ascii_of_nat 10) "interrupted".

(** The epoch loop of [run]: [for ep in range(1, epochs + 1): ...] *)
Definition epochs_loop (epochs : Z) (train_data test_data : list Batch)
    : M Event World unit :=
  for_each (seqZ 1 epochs)
    (fun ep => train train_data ;; test test_data TEST).

(** Lines 195-205 *)
Definition run (epochs : Z) (train_data test_data : list Batch)
    : M Event World unit :=
  try_finally
    (try_except
       (epochs_loop epochs train_data test_data ;; _exit)
       is_KeyboardInterrupt
       (emit (EvPrint interrupted)))
    (emit EvClose).

End Lifecycle.

(** ** Counting events *)

Fixpoint count {E} (p : E -> bool) (l : list E) : nat :=
  match l with
  | [] => 0
  | ev :: l' => (if p ev then 1 else 0) + count p l'
  end.

Definition is_close (ev : Event) : bool :=
  match ev with EvClose => true | _ => false end.

Definition is_notice (ev : Event) : bool :=
  match ev with EvPrint _ => true | _ => false end.

Definition is_end_all (ev : Event) : bool :=
  match ev with EvEndAll _ => true | _ => false end.

Definition is_end_epoch (ev : Event) : bool :=
  match ev with EvEndEpoch _ => true | _ => false end.

Definition is_optimizer_step (ev : EngineEvent) : bool :=
  match ev with EvOptimizerStep _ => true | _ => false end.

(** ** Sequences of calls on a trainer *)

(** The calls a user makes on a constructed trainer. *)
Inductive Op :=
| OpTrain (data_loader : list Batch)
| OpTest (data_loader : list Batch) (name : string)
| OpRun (epochs : Z) (train_data test_data : list Batch)
| OpRegisterStartIteration (name : string) (data : Value)
| OpRegisterEndIteration (name : string) (data : Value)
| OpRegisterStartEpoch (name : string) (data : Value)
| OpRegisterEndEpoch (name : string) (data : Value)
| OpRegisterEndAll (name : string) (data : Value).

Definition exec_op (iteration : Iteration) (op : Op) : M Event World unit :=
  match op with
  | OpTrain d => train iteration d
  | OpTest d name => test iteration d name
  | OpRun epochs d d' => run iteration epochs d d'
  | OpRegisterStartIteration name data => register_start_iteration name data
  | OpRegisterEndIteration name data => register_end_iteration name data
  | OpRegisterStartEpoch name data => register_start_epoch name data
  | OpRegisterEndEpoch name data => register_end_epoch name data
  | OpRegisterEndAll name data => register_end_all name data
  end.

(** The calls are made one after the other; a caller that catches the
    exception of one call goes on with the next. *)
Fixpoint exec_ops (iteration : Iteration) (ops : list Op) (w : World)
    : World * list Event :=
  match ops with
  | [] => (w, [])
  | op :: ops' =>
      let o := exec_op iteration op w in
      let r := exec_ops iteration ops' (post o) in
      (r.1, out o ++ r.2)
  end.

Definition registers_start_epoch (name : string) (op : Op) : bool :=
  match op with
  | OpRegisterStartEpoch name' _ => bool_decide (name' = name)
  | _ => false
  end.

(** ** Configurations *)

(** A keyed configuration: the model, the optimizer or the scheduler is a
    dict. *)
Definition keyed (a : InitArgs) : bool :=
  is_model_dict (arg_model a) || is_optimizer_dict (arg_optimizer a)
  || is_scheduler_dict (arg_scheduler a).

Definition optimizer_assigned (a : OptimizerArg) : bool :=
  match a with ArgOptimizerOther => false | _ => true end.

Definition scheduler_assigned (a : SchedulerArg) : bool :=
  match a with ArgSchedulerOther => false | _ => true end.

(** The attributes that [self] has when the keyword arguments are stored:
    those of its class and those assigned from the other arguments. *)
Definition existing_attribute (a : InitArgs) (k : string) : Prop :=
  (k ∈ TrainerBase_names ++ arg_class_names a) \/
  (k ∈ assigned_names (optimizer_assigned (arg_optimizer a))
         (scheduler_assigned (arg_scheduler a))).

(** A keyword argument collides with an existing attribute. *)
Definition kwargs_collide (a : InitArgs) : Prop :=
  exists k v, (k, v) ∈ arg_kwargs a /\ existing_attribute a k.

(** The keys of the optimizer (scheduler) dict are not those of the model
    (optimizer) dict: some are extra, or some are missing. *)
Definition keys_differ {V V'} (d : list (string * V)) (d' : list (string * V'))
    : Prop :=
  exists k, (k ∈ d.*1 /\ (k ∉ d'.*1)) \/ ((k ∉ d.*1) /\ k ∈ d'.*1).

Definition keys_mismatch (a : InitArgs) : Prop :=
  (exists md od, arg_model a = ArgModelDict md /\
                 arg_optimizer a = ArgOptimizerDict od /\ keys_differ od md) \/
  (exists od sd, arg_optimizer a = ArgOptimizerDict od /\
                 arg_scheduler a = ArgSchedulerDict sd /\ keys_differ sd od).

End Homura.

(** ** A trainer to run the definitions on *)

Definition toy_trainer : @Trainer toy_torch :=
  {| _device := "cpu";
     model := SingleModel 0;
     _is_single_model := true;
     optimizer := Some (SingleOptim {| optim_id := 1;
                                       optim_model := SingleModel 0 |});
     _scheduler := Some NoScheduler;
     loss_f := LossCallable 0;
     _callbacks := [];
     _step := 0;
     _epoch := 0;
     _verb := true;
     _is_train := true;
     kwattrs := ∅;
     _start_iteration := ∅;
     _end_iteration := ∅;
     _start_epoch := ∅;
     _end_epoch := ∅;
     _end_all := ∅ |}.

Definition toy_env (f : option Fault) : @Env toy_torch :=
  {| engine := (5%Z, 0%Z) : @Engine toy_torch;
     grad_enabled := true;
     fault := f |}.

Definition toy_world (f : option Fault) : @World toy_torch :=
  {| self := toy_trainer; env := toy_env f |}.

(** Three batches of (input, target). *)
Definition toy_data : list (@Batch toy_torch) :=
  [[1%Z; 2%Z]; [3%Z; 4%Z]; [5%Z; 6%Z]].

Definition toy_args (m : ModelArg) (o : OptimizerArg) (s : SchedulerArg)
    (kwargs : list (string * @Value toy_torch)) : @InitArgs toy_torch :=
  {| arg_model := m;
     arg_optimizer := o;
     arg_loss_f := LossCallable 0;
     arg_callbacks := ArgCallback None;
     arg_scheduler := s;
     arg_verb := true;
     arg_use_cudnn_bnenchmark := true;
     arg_kwargs := kwargs;
     arg_class_names := [] |}.

(** A [KeyboardInterrupt] delivered before the [n]-th call from now. *)
Definition interrupt_at (n : nat) : option Fault :=
  Some {| fault_at := n; fault_exn := KeyboardInterrupt;
          fault_after := false |}.

(** * Properties *)

Section Properties.
Context `{torch : Torch} `{vocabulary : Vocabulary}.

Abbreviation Ctx := (gmap string Value).

(** ** The monad *)

Section MonadFacts.
Context {E S : Type}.

Lemma count_app (p : E -> bool) (l l' : list E) :
  count p (l ++ l') = count p l + count p l'.
Proof. induction l as [|ev l IH]; simpl; [done | rewrite IH; lia]. Qed.

Lemma count_none (p : E -> bool) (l : list E) :
  Forall (fun ev => p ev = false) l -> count p l = 0.
Proof. induction 1 as [|ev l Hev _ IH]; simpl; [done | by rewrite Hev, IH]. Qed.

Lemma bind_res_ok {A B} (m : M E S A) (k : A -> M E S B) (s : S) (a : A) :
  res (m s) = Ok a ->
  bind m k s = {| res := res (k a (post (m s)));
                  post := post (k a (post (m s)));
                  out := out (m s) ++ out (k a (post (m s))) |}.
Proof. intros H. unfold bind. by rewrite H. Qed.

Lemma bind_res_raise {A B} (m : M E S A) (k : A -> M E S B) (s : S) (e : Exn) :
  res (m s) = Raise e ->
  bind m k s = {| res := Raise e; post := post (m s); out := out (m s) |}.
Proof. intros H. unfold bind. by rewrite H. Qed.

Lemma bind_ext {A B} (m : M E S A) (k k' : A -> M E S B) (s : S) :
  (forall a s', k a s' = k' a s') -> bind m k s = bind m k' s.
Proof. intros H. unfold bind. destruct (res (m s)); [|done]. by rewrite H. Qed.

Lemma bind_ret {A B} (a : A) (k : A -> M E S B) (s : S) :
  bind (ret a) k s = k a s.
Proof. unfold bind, ret. simpl. by destruct (k a s). Qed.

Lemma bind_get {B} (k : S -> M E S B) (s : S) : bind get k s = k s s.
Proof. unfold bind, get. simpl. by destruct (k s s). Qed.

Lemma bind_ok_post {A B} (m : M E S A) (k : A -> M E S B) (s : S) (b : B) :
  res (bind m k s) = Ok b ->
  exists a, res (m s) = Ok a /\ res (k a (post (m s))) = Ok b /\
            post (bind m k s) = post (k a (post (m s))) /\
            out (bind m k s) = out (m s) ++ out (k a (post (m s))).
Proof.
  unfold bind. destruct (res (m s)) as [a|e] eqn:H; simpl; [eauto 6 | done].
Qed.

(** A sequence that completes has completed its first part. *)
Lemma bind_ok_inv {A B} (m : M E S A) (k : A -> M E S B) (s : S) (b : B) :
  res (bind m k s) = Ok b ->
  exists a, res (m s) = Ok a /\ res (k a (post (m s))) = Ok b.
Proof.
  unfold bind. destruct (res (m s)) as [a|e] eqn:H; simpl; [eauto | done].
Qed.

End MonadFacts.

(** The outcome of one collaborator call. *)
Lemma call_cases {E} (ev : E) (e : Env) :
  (res (call ev e) = Ok tt /\ out (call ev e) = [ev]) \/
  (exists x, res (call ev e) = Raise x /\
             (out (call ev e) = [] \/ out (call ev e) = [ev])).
Proof.
  unfold call. destruct (fault e) as [f|]; [|by left].
  destruct (fault_at f); simpl; [|by left].
  right. exists (fault_exn f). split; [done|]. destruct (fault_after f); auto.
Qed.

Lemma call_engine {E} (ev : E) (e : Env) :
  engine (post (call ev e)) = engine e /\
  grad_enabled (post (call ev e)) = grad_enabled e.
Proof.
  unfold call. destruct (fault e) as [f|]; [|done].
  by destruct (fault_at f).
Qed.

Lemma call_no_fault {E} (ev : E) (e : Env) :
  fault e = None ->
  call ev e = {| res := Ok tt; post := e; out := [ev] |}.
Proof. intros H. unfold call. by rewrite H. Qed.

Lemma call_out {E} (P : E -> Prop) (ev : E) (e : Env) :
  P ev -> Forall P (out (call ev e)).
Proof.
  intros H. destruct (call_cases ev e) as [[_ ->]|(x & _ & [->| ->])]; auto.
Qed.

(** [emits P m]: every event that [m] puts out satisfies [P]. *)
Definition emits {E S A} (P : E -> Prop) (m : M E S A) : Prop :=
  forall s, Forall P (out (m s)).

Section Emits.
Context {E S : Type}.
Variable P : E -> Prop.

Lemma emits_ret {A} (a : A) : emits P (@ret E S A a).
Proof. intros s. constructor. Qed.

Lemma emits_raise {A} (e : Exn) : emits P (@raise E S A e).
Proof. intros s. constructor. Qed.

Lemma emits_modify (f : S -> S) : emits P (@modify E S f).
Proof. intros s. constructor. Qed.

Lemma emits_get : emits P (@get E S).
Proof. intros s. constructor. Qed.

Lemma emits_bind {A B} (m : M E S A) (k : A -> M E S B) :
  emits P m -> (forall a, emits P (k a)) -> emits P (bind m k).
Proof.
  intros Hm Hk s. unfold bind. destruct (res (m s)); simpl; [|apply Hm].
  apply Forall_app. split; [apply Hm | apply Hk].
Qed.

Lemma emits_call (ev : E) : P ev -> emits P (call ev).
Proof. intros H e. by apply call_out. Qed.

Lemma emits_map_out {E' A} (f : E' -> E) (m : M E' S A) :
  (forall x, P (f x)) -> emits P (map_out f m).
Proof. intros H s. simpl. apply Forall_map, Forall_forall. auto. Qed.

End Emits.

(** ** Invariants of the trainer and of the events put out

    [respects I P m]: from a trainer that satisfies [I], the computation [m]
    leaves a trainer that satisfies [I], and every event it puts out
    satisfies [P]. *)

Definition respects (I : Trainer -> Prop) (P : Event -> Prop) {A}
    (m : M Event World A) : Prop :=
  forall w, I (self w) -> I (self (post (m w))) /\ Forall P (out (m w)).

Section Respects.
Variable I : Trainer -> Prop.
Variable P : Event -> Prop.

Lemma respects_ret {A} (a : A) : respects I P (ret a).
Proof. intros w H. by split; [|constructor]. Qed.

Lemma respects_raise {A} (e : Exn) : respects I P (@raise _ _ A e).
Proof. intros w H. by split; [|constructor]. Qed.

Lemma respects_get : respects I P get.
Proof. intros w H. by split; [|constructor]. Qed.

Lemma respects_getattr {A} (field : Trainer -> option A) :
  respects I P (getattr field).
Proof.
  intros w H. unfold getattr. destruct (field (self w)); by split; [|constructor].
Qed.

Lemma respects_emit (ev : Event) : P ev -> respects I P (emit ev).
Proof. intros Hev w H. split; [done|]. simpl. auto. Qed.

Lemma respects_bind {A B} (m : M Event World A) (k : A -> M Event World B) :
  respects I P m -> (forall a, respects I P (k a)) -> respects I P (bind m k).
Proof.
  intros Hm Hk w H. destruct (Hm w H) as [H1 H2]. unfold bind.
  destruct (res (m w)) as [a|e]; simpl; [|done].
  destruct (Hk a _ H1) as [H3 H4]. split; [done|]. by apply Forall_app.
Qed.

Lemma respects_update_self (f : Trainer -> Trainer) :
  (forall t, I t -> I (f t)) -> respects I P (update_self f).
Proof. intros Hf w H. split; [by apply Hf | constructor]. Qed.

Lemma respects_lift {A} (m : Trainer -> M Event Env A) :
  (forall t, I t -> emits P (m t)) -> respects I P (lift m).
Proof. intros Hm w H. split; [done|]. by apply Hm. Qed.

Lemma respects_with_grad {A} (b : bool) (m : M Event World A) :
  respects I P m -> respects I P (with_grad b m).
Proof.
  intros Hm w H. unfold with_grad. simpl.
  by apply (Hm {| self := self w; env := set_grad_enabled b (env w) |}).
Qed.

Lemma respects_for_each {A} (l : list A) (body : A -> M Event World unit) :
  (forall x, respects I P (body x)) -> respects I P (for_each l body).
Proof.
  intros Hb. induction l as [|x l IH]; simpl.
  - apply respects_ret.
  - apply respects_bind; [apply Hb | intros _; apply IH].
Qed.

Lemma respects_try_except {A} (body handler : M Event World A)
    (catches : Exn -> bool) :
  respects I P body -> respects I P handler ->
  respects I P (try_except body catches handler).
Proof.
  intros Hb Hh w H. destruct (Hb w H) as [H1 H2]. unfold try_except.
  destruct (res (body w)) as [a|e]; [done|].
  destruct (catches e); [|done]. simpl.
  destruct (Hh _ H1) as [H3 H4]. split; [done|]. by apply Forall_app.
Qed.

Lemma respects_try_finally {A} (body : M Event World A)
    (cleanup : M Event World unit) :
  respects I P body -> respects I P cleanup ->
  respects I P (try_finally body cleanup).
Proof.
  intros Hb Hc w H. destruct (Hb w H) as [H1 H2]. unfold try_finally. simpl.
  destruct (Hc _ H1) as [H3 H4]. split; [done|]. by apply Forall_app.
Qed.

End Respects.

(** What an invariant [I] and a property [P] of events must satisfy to hold
    throughout the epoch loop: the counters and the mode flag do not matter
    to [I], and [P] holds of the calls that the loop makes. *)
Record observes (I : Trainer -> Prop) (P : Event -> Prop) : Prop := {
  obs_step : forall t z, I t -> I (set__step z t);
  obs_epoch : forall t z, I t -> I (set__epoch z t);
  obs_is_train : forall t b, I t -> I (set__is_train b t);
  obs_engine : forall ev, P (EvEngine ev);
  obs_model_train : P EvModelTrain;
  obs_model_eval : P EvModelEval;
  obs_scheduler_step : forall s, P (EvSchedulerStep s);
  obs_start_iteration :
    forall t d, I t -> P (EvStartIteration (dict_update d (_start_iteration t)));
  obs_end_iteration :
    forall t d, I t -> P (EvEndIteration (dict_update d (_end_iteration t)));
  obs_start_epoch :
    forall t d, I t -> P (EvStartEpoch (dict_update d (_start_epoch t)));
  obs_end_epoch :
    forall t d, I t -> P (EvEndEpoch (dict_update d (_end_epoch t)))
}.

Ltac respects_step :=
  match goal with
  | |- respects _ _ (bind _ _) => apply respects_bind; [|intros ?]
  | |- respects _ _ (with_grad _ _) => apply respects_with_grad
  | |- respects _ _ (ret _) => apply respects_ret
  | |- respects _ _ (raise _) => apply respects_raise
  | |- respects _ _ get => apply respects_get
  | |- respects _ _ (getattr _) => apply respects_getattr
  | |- respects _ _ (for_each _ _) => apply respects_for_each; intros ?
  | |- respects _ _ (lift _) => apply respects_lift; intros ? ?
  | |- respects _ _ (if ?b then _ else _) => destruct b
  | |- respects _ _ (match ?x with _ => _ end) => destruct x
  | |- emits _ (bind _ _) => apply emits_bind; [|intros ?]
  | |- emits _ (call _) => apply emits_call
  | |- emits _ (map_out _ _) => apply emits_map_out
  | |- emits _ (update_engine _) => apply emits_modify
  end.

Section Observed.
Variable iteration : Iteration.
Variable I : Trainer -> Prop.
Variable P : Event -> Prop.
Hypothesis obs : observes I P.

Lemma respects__iteration (data : Batch) (name : string) :
  respects I P (_iteration iteration data name).
Proof.
  destruct obs. unfold _iteration, unpack_pair.
  repeat respects_step; auto.
Qed.

Lemma respects__loop (data_loader : list Batch) (name : string) :
  respects I P (_loop iteration data_loader name).
Proof.
  pose proof respects__iteration as Hit. destruct obs. unfold _loop.
  repeat first [ apply Hit | apply respects_update_self; auto | respects_step ];
    auto.
Qed.

Lemma respects_train (data_loader : list Batch) :
  respects I P (train iteration data_loader).
Proof.
  pose proof respects__loop as Hloop. destruct obs. unfold train.
  repeat first [ apply Hloop | apply respects_update_self; auto | respects_step ];
    auto.
Qed.

Lemma respects_test (data_loader : list Batch) (name : string) :
  respects I P (test iteration data_loader name).
Proof.
  pose proof respects__loop as Hloop. destruct obs. unfold test.
  repeat first [ apply Hloop | apply respects_update_self; auto | respects_step ];
    auto.
Qed.

Lemma respects_epochs_loop (epochs : Z) (train_data test_data : list Batch) :
  respects I P (epochs_loop iteration epochs train_data test_data).
Proof.
  unfold epochs_loop. apply respects_for_each. intros _.
  apply respects_bind; [apply respects_train | intros _; apply respects_test].
Qed.

Hypothesis obs_end_all :
  forall t d, I t -> P (EvEndAll (dict_update d (_end_all t))).

Lemma respects__exit : respects I P _exit.
Proof. unfold _exit. repeat respects_step; auto. Qed.

Hypothesis obs_notice : forall s, P (EvPrint s).
Hypothesis obs_close : P EvClose.

Lemma respects_run (epochs : Z) (train_data test_data : list Batch) :
  respects I P (run iteration epochs train_data test_data).
Proof.
  unfold run. apply respects_try_finally; [|by apply respects_emit].
  apply respects_try_except; [|by apply respects_emit].
  apply respects_bind; [apply respects_epochs_loop | intros _; apply respects__exit].
Qed.

End Observed.

(** ** What the loop does to the trainer *)

Lemma set__step_same (t : Trainer) : set__step (_step t) t = t.
Proof. by destruct t. Qed.

Lemma set__step_twice (z z' : Z) (t : Trainer) :
  set__step z (set__step z' t) = set__step z t.
Proof. done. Qed.

Lemma with_grad_res {A} (b : bool) (m : M Event World A) (w : World) :
  res (with_grad b m w)
  = res (m {| self := self w; env := set_grad_enabled b (env w) |}).
Proof. done. Qed.

Lemma with_grad_self {A} (b : bool) (m : M Event World A) (w : World) :
  self (post (with_grad b m w))
  = self (post (m {| self := self w; env := set_grad_enabled b (env w) |})).
Proof. done. Qed.

Lemma with_grad_out {A} (b : bool) (m : M Event World A) (w : World) :
  out (with_grad b m w)
  = out (m {| self := self w; env := set_grad_enabled b (env w) |}).
Proof. done. Qed.

(** A computation that leaves the trainer as it found it. *)
Definition keeps_self {A} (m : M Event World A) : Prop :=
  forall w, self (post (m w)) = self w.

Lemma keeps_self_respects {A} (m : M Event World A) :
  (forall t0, respects (fun t => t = t0) (fun _ => True) m) -> keeps_self m.
Proof. intros H w. by destruct (H (self w) w eq_refl) as [-> _]. Qed.

Lemma keeps_self__iteration (iteration : Iteration) (data : Batch)
    (name : string) :
  keeps_self (_iteration iteration data name).
Proof.
  apply keeps_self_respects. intros t0. unfold _iteration, unpack_pair.
  repeat respects_step; auto.
Qed.

Lemma keeps_self__exit : keeps_self _exit.
Proof.
  apply keeps_self_respects. intros t0. unfold _exit.
  repeat respects_step; auto.
Qed.

(** The trainer after [k] steps of the batch loop. *)
Definition stepped (k : nat) (t : Trainer) : Trainer :=
  if _is_train t then set__step (_step t + Z.of_nat k) t else t.

Lemma stepped_0 (t : Trainer) : stepped 0 t = t.
Proof.
  unfold stepped. destruct (_is_train t); [|done].
  rewrite Z.add_0_r. apply set__step_same.
Qed.

Lemma stepped_S (k : nat) (t : Trainer) :
  stepped k (stepped 1 t) = stepped (S k) t.
Proof.
  unfold stepped. destruct (_is_train t) eqn:H; simpl; rewrite ?H; [|done].
  rewrite set__step_twice. f_equal. lia.
Qed.

Definition loop_body (iteration : Iteration) (name : string) (data : Batch)
    : M Event World unit :=
  _iteration iteration data name ;;
  w <- get ;;
  if _is_train (self w)
  then update_self (fun t => set__step (_step t + 1) t)
  else ret tt.

(** Case analysis on the first part of a sequence. *)
Ltac bind_cases H :=
  match goal with
  | |- context [bind ?m ?k ?s] =>
      let a := fresh "a" in
      let e := fresh "e" in
      destruct (res (m s)) as [a|e] eqn:H;
      [ rewrite (bind_res_ok m k s a H)
      | rewrite (bind_res_raise m k s e H) ];
      cbn [res post out]
  end.

Lemma loop_body_self (iteration : Iteration) (name : string) (data : Batch)
    (w : World) :
  let o := loop_body iteration name data w in
  match res o with
  | Ok _ => self (post o) = stepped 1 (self w)
  | Raise _ => self (post o) = self w
  end.
Proof.
  cbv zeta. unfold loop_body.
  pose proof (keeps_self__iteration iteration data name w) as Hk.
  bind_cases Hr; [|exact Hk].
  unfold bind, get; simpl. rewrite Hk. unfold stepped.
  destruct (_is_train (self w)); simpl; rewrite ?Hk; reflexivity.
Qed.

Lemma for_each_self (iteration : Iteration) (name : string)
    (l : list Batch) (w : World) :
  let o := for_each l (loop_body iteration name) w in
  exists k, k <= length l /\ self (post o) = stepped k (self w) /\
            (res o = Ok tt -> k = length l).
Proof.
  cbv zeta. revert w. induction l as [|data l IH]; intros w; simpl.
  - exists 0. by rewrite stepped_0.
  - pose proof (loop_body_self iteration name data w) as Hb. cbv zeta in Hb.
    bind_cases Hr.
    + destruct (IH (post (loop_body iteration name data w)))
        as (k & Hk & Hself & Hok).
      exists (S k). split; [lia|]. split.
      * by rewrite Hself, Hb, stepped_S.
      * intros H. by rewrite Hok.
    + exists 0. rewrite stepped_0. split; [lia|]. by split.
Qed.

Lemma TQDMWrapper_if (b : bool) (l : list Batch) :
  (if b then TQDMWrapper l else l) = l.
Proof. by destruct b. Qed.

(** The two dispatches of [_loop], around its batch loop. *)
Definition dispatch_start_epoch (name : string) : M Event World unit :=
  with_grad false
    (lift (fun t =>
       call (EvStartEpoch
               (dict_update
                  (dict_literal [(MODEL, VModel (model t));
                                 (NAME, VStr name);
                                 (TRAINER, VSelf)])
                  (_start_epoch t))))).

Definition dispatch_end_epoch (n : nat) (name : string)
    : M Event World unit :=
  with_grad false
    (o <- getattr optimizer ;;
     lift (fun t =>
       call (EvEndEpoch
               (dict_update
                  (dict_literal [(MODEL, VModel (model t));
                                 (OPTIMIZER, VOptimizer o);
                                 (EPOCH, VInt (_epoch t));
                                 (NAME, VStr name);
                                 (ITER_PER_EPOCH, VInt (Z.of_nat n));
                                 (TRAINER, VSelf)])
                  (_end_epoch t))))).

Lemma _loop_unfold (iteration : Iteration) (data_loader : list Batch)
    (name : string) (w : World) :
  _loop iteration data_loader name w
  = (dispatch_start_epoch name ;;
     for_each data_loader (loop_body iteration name) ;;
     dispatch_end_epoch (length data_loader) name) w.
Proof.
  unfold _loop, dispatch_start_epoch, dispatch_end_epoch, loop_body.
  apply bind_ext. intros _ s. rewrite bind_get.
  by rewrite TQDMWrapper_if.
Qed.

Lemma keeps_self_dispatch_start_epoch (name : string) :
  keeps_self (dispatch_start_epoch name).
Proof.
  apply keeps_self_respects. intros t0. unfold dispatch_start_epoch.
  repeat respects_step; auto.
Qed.

Lemma keeps_self_dispatch_end_epoch (n : nat) (name : string) :
  keeps_self (dispatch_end_epoch n name).
Proof.
  apply keeps_self_respects. intros t0. unfold dispatch_end_epoch.
  repeat respects_step; auto.
Qed.

Lemma _loop_self (iteration : Iteration) (data_loader : list Batch)
    (name : string) (w : World) :
  let o := _loop iteration data_loader name w in
  exists k, k <= length data_loader /\ self (post o) = stepped k (self w) /\
            (res o = Ok tt -> k = length data_loader).
Proof.
  cbv zeta. rewrite _loop_unfold.
  pose proof (keeps_self_dispatch_start_epoch name w) as H1.
  bind_cases Hr1.
  2:{ exists 0. rewrite stepped_0. split; [lia|]. by split. }
  destruct (for_each_self iteration name data_loader
              (post (dispatch_start_epoch name w)))
    as (k & Hk & Hself & Hok).
  rewrite H1 in Hself.
  bind_cases Hr2.
  2:{ exists k. split; [done|]. by split. }
  exists k. rewrite keeps_self_dispatch_end_epoch.
  split; [done|]. split; [done|]. intros _. apply Hok. by destruct a0.
Qed.

Lemma keeps_self_lift {A} (m : Trainer -> M Event Env A) : keeps_self (lift m).
Proof. by intros w. Qed.

Lemma test_self (iteration : Iteration) (data_loader : list Batch)
    (name : string) (w : World) :
  self (post (test iteration data_loader name w))
  = set__is_train false (self w).
Proof.
  unfold test. bind_cases H1; [|done].
  bind_cases H2; [|done].
  rewrite with_grad_self.
  match goal with
  | |- context [_loop iteration data_loader name ?w'] =>
      destruct (_loop_self iteration data_loader name w') as (k & _ & -> & _)
  end.
  done.
Qed.

Lemma train_self (iteration : Iteration) (data_loader : list Batch)
    (w : World) :
  res (train iteration data_loader w) = Ok tt ->
  self (post (train iteration data_loader w))
  = set__epoch (_epoch (self w) + 1)
      (set__step (_step (self w) + Z.of_nat (length data_loader))
         (set__is_train true (self w))).
Proof.
  unfold train. intros H.
  apply bind_ok_post in H as (a1 & _ & H & -> & _).
  apply bind_ok_post in H as (a2 & _ & H & -> & _).
  apply bind_ok_post in H as (a3 & H3 & H & -> & _).
  apply bind_ok_post in H as (a4 & H4 & H & -> & _).
  apply bind_ok_post in H as (a5 & H5 & H & -> & _).
  rewrite with_grad_res in H3.
  match type of H3 with
  | res (_loop _ _ _ ?w') = _ =>
      destruct (_loop_self iteration data_loader TRAIN w')
        as (k & _ & Hself & Hk)
  end.
  destruct a3. specialize (Hk H3). subst k.
  cbn [post update_self modify self lift] in *.
  assert (Hsched : forall w', res (getattr _scheduler w') = Ok a4 ->
    self (post ((match a4 with
                 | NoScheduler => ret tt
                 | SingleSched s =>
                     lift (fun _ => call (EvSchedulerStep (sched_id s)) ;;
                                    update_engine (scheduler_step (sched_id s)))
                 | SchedDict _ => raise AttributeError
                 end) (post (getattr _scheduler w')))) = self w').
  { intros w' Hw'. unfold getattr in *.
    destruct (_scheduler (self w')); [|done]. by destruct a4. }
  rewrite (Hsched _ H4), with_grad_self. cbn [self]. by rewrite Hself.
Qed.


(** ** [run]: interruption and cleanup *)

(** The block that [run] guards with [try]. *)
Definition guarded (iteration : Iteration) (epochs : Z)
    (train_data test_data : list Batch) : M Event World unit :=
  epochs_loop iteration epochs train_data test_data ;; _exit.

Definition notice (r : Result unit) : list Event :=
  match r with
  | Ok _ => []
  | Raise e => if is_KeyboardInterrupt e then [EvPrint interrupted] else []
  end.

Lemma run_out (iteration : Iteration) (epochs : Z)
    (train_data test_data : list Batch) (w : World) :
  let body := guarded iteration epochs train_data test_data w in
  out (run iteration epochs train_data test_data w)
  = out body ++ notice (res body) ++ [EvClose].
Proof.
  cbv zeta. unfold run, try_finally, try_except. fold (guarded iteration epochs train_data test_data).
  destruct (res (guarded iteration epochs train_data test_data w)) as [[]|e];
    simpl; [done|].
  destruct (is_KeyboardInterrupt e); simpl; [|done].
  by rewrite <- app_assoc.
Qed.

Lemma run_res (iteration : Iteration) (epochs : Z)
    (train_data test_data : list Batch) (w : World) :
  let body := guarded iteration epochs train_data test_data w in
  res (run iteration epochs train_data test_data w)
  = match res body with
    | Ok _ => Ok tt
    | Raise e => if is_KeyboardInterrupt e then Ok tt else Raise e
    end.
Proof.
  cbv zeta. unfold run, try_finally, try_except. fold (guarded iteration epochs train_data test_data).
  destruct (res (guarded iteration epochs train_data test_data w)) as [[]|e]
    eqn:H; simpl; rewrite ?H; [done|].
  destruct (is_KeyboardInterrupt e); simpl; [done|]. by rewrite H.
Qed.

(** Neither the epoch loop nor the end-of-run dispatch closes the
    dispatcher or prints. *)
Definition lifecycle_call (ev : Event) : Prop :=
  is_close ev = false /\ is_notice ev = false.

Lemma observes_lifecycle_call : observes (fun _ => True) lifecycle_call.
Proof. by split. Qed.

Lemma guarded_lifecycle_calls (iteration : Iteration) (epochs : Z)
    (train_data test_data : list Batch) (w : World) :
  Forall lifecycle_call
    (out (guarded iteration epochs train_data test_data w)).
Proof.
  assert (H : respects (fun _ => True) lifecycle_call
                (guarded iteration epochs train_data test_data)).
  { apply respects_bind.
    - apply respects_epochs_loop, observes_lifecycle_call.
    - intros _. by apply respects__exit. }
  by apply H.
Qed.

Lemma count_lifecycle_calls (l : list Event) :
  Forall lifecycle_call l -> count is_close l = 0 /\ count is_notice l = 0.
Proof.
  intros H. split; apply count_none; eapply Forall_impl; try exact H;
    by intros ev [? ?].
Qed.

Lemma count_notice (r : Result unit) :
  count is_close (notice r) = 0 /\
  count is_notice (notice r)
  = match r with
    | Raise KeyboardInterrupt => 1
    | _ => 0
    end.
Proof. destruct r as [|[]]; by simpl. Qed.

(** The close count and the result of [run], shared by the two theorems on
    interruption. *)
Lemma run_closes_dispatcher_once_aux (iteration : Iteration) (epochs : Z)
    (train_data test_data : list Batch) (w : World) :
  count is_close (out (run iteration epochs train_data test_data w)) = 1 /\
  res (run iteration epochs train_data test_data w)
  = match res (guarded iteration epochs train_data test_data w) with
    | Ok _ => Ok tt
    | Raise e => if is_KeyboardInterrupt e then Ok tt else Raise e
    end.
Proof.
  rewrite run_out, run_res. cbv zeta. split; [|done].
  pose proof (guarded_lifecycle_calls iteration epochs train_data test_data w)
    as Hq.
  apply count_lifecycle_calls in Hq as [Hc _].
  pose proof (count_notice
                (res (guarded iteration epochs train_data test_data w)))
    as [Hc' _].
  by rewrite !count_app, Hc, Hc'.
Qed.

(** C2. Whatever the schedule of faults, and so whether the guarded block
    completes, is interrupted at any of its calls, or fails otherwise, [run]
    calls the dispatcher's [close] exactly once, as its last call.  A
    [KeyboardInterrupt] is caught: the notice is printed once and [run]
    returns normally.  Any other exception leaves [run] after the close. *)
Theorem run_closes_dispatcher_once (iteration : Iteration) (epochs : Z)
    (train_data test_data : list Batch) (w : World) :
  let body := guarded iteration epochs train_data test_data w in
  let o := run iteration epochs train_data test_data w in
  count is_close (out o) = 1 /\
  (exists before, out o = before ++ [EvClose]) /\
  match res body with
  | Ok _ => res o = Ok tt /\ count is_notice (out o) = 0
  | Raise KeyboardInterrupt => res o = Ok tt /\ count is_notice (out o) = 1
  | Raise e => res o = Raise e /\ count is_notice (out o) = 0
  end.
Proof.
  cbv zeta. rewrite run_out, run_res. cbv zeta.
  pose proof (guarded_lifecycle_calls iteration epochs train_data test_data w)
    as Hq.
  apply count_lifecycle_calls in Hq as [Hc Hn].
  pose proof (count_notice
                (res (guarded iteration epochs train_data test_data w)))
    as [Hc' Hn'].
  rewrite !count_app, Hc, Hn, Hc', Hn'. simpl.
  split; [done|]. split; [by rewrite app_assoc; eauto|].
  by destruct (res (guarded iteration epochs train_data test_data w)) as [|[]].
Qed.

(** The end-of-run dispatch is the only [end_all] call. *)
Lemma observes_not_end_all :
  observes (fun _ => True) (fun ev => is_end_all ev = false).
Proof. by split. Qed.

Lemma epochs_loop_no_end_all (iteration : Iteration) (epochs : Z)
    (train_data test_data : list Batch) (w : World) :
  count is_end_all (out (epochs_loop iteration epochs train_data test_data w))
  = 0.
Proof.
  apply count_none.
  by apply (respects_epochs_loop iteration _ _ observes_not_end_all).
Qed.

Lemma _exit_cases (w : World) :
  (res (_exit w) = Ok tt /\ exists ctx, out (_exit w) = [EvEndAll ctx]) \/
  (exists e, res (_exit w) = Raise e /\
             (out (_exit w) = [] \/ exists ctx, out (_exit w) = [EvEndAll ctx])).
Proof.
  unfold _exit. rewrite with_grad_res, with_grad_out.
  unfold bind, getattr, lift. cbn [self env].
  destruct (optimizer (self w)) as [o|]; cbn [res post out ret raise self env].
  2:{ right. eauto. }
  match goal with
  | |- context [call ?ev ?e] =>
      destruct (call_cases ev e) as [[-> ->]|(x & -> & [->| ->])]
  end; simpl; eauto 7.
Qed.

Lemma _exit_count (w : World) :
  count is_end_all (out (_exit w)) <= 1 /\
  (res (_exit w) = Ok tt -> count is_end_all (out (_exit w)) = 1).
Proof.
  destruct (_exit_cases w) as [[-> [ctx ->]]|(e & -> & [->|[ctx ->]])];
    simpl; split; (lia || done).
Qed.

(** C9. The [end_all] dispatch is made at most once, and only after the
    epoch loop has completed; a guarded block that completes has made it.
    When the epoch loop is cut short by an exception, [end_all] is not
    dispatched while the dispatcher is still closed once, and when that
    exception is a [KeyboardInterrupt], [run] returns normally. *)
Theorem end_all_only_after_all_epochs (iteration : Iteration) (epochs : Z)
    (train_data test_data : list Batch) (w : World) :
  let loop := epochs_loop iteration epochs train_data test_data w in
  let body := guarded iteration epochs train_data test_data w in
  let o := run iteration epochs train_data test_data w in
  count is_end_all (out o) <= 1 /\
  (count is_end_all (out o) = 1 -> res loop = Ok tt) /\
  (res body = Ok tt -> count is_end_all (out o) = 1) /\
  (forall e, res loop = Raise e ->
     count is_end_all (out o) = 0 /\
     count is_close (out o) = 1 /\
     (e = KeyboardInterrupt -> res o = Ok tt)).
Proof.
  cbv zeta.
  destruct (run_closes_dispatcher_once_aux iteration epochs train_data
              test_data w) as [Hclose Hres].
  assert (Hn : forall r, count is_end_all (notice r) = 0).
  { intros [|e]; [done|]. simpl. by destruct (is_KeyboardInterrupt e). }
  assert (Hea : count is_end_all
                  (out (run iteration epochs train_data test_data w))
                = count is_end_all
                    (out (guarded iteration epochs train_data test_data w))).
  { rewrite run_out. cbv zeta. rewrite !count_app, Hn. simpl. lia. }
  rewrite Hea. clear Hea.
  pose proof (epochs_loop_no_end_all iteration epochs train_data test_data w)
    as Hloop.
  unfold guarded in *.
  destruct (res (epochs_loop iteration epochs train_data test_data w))
    as [[]|e] eqn:Hr.
  - rewrite (bind_res_ok _ _ _ _ Hr). cbn [res out].
    rewrite count_app, Hloop.
    destruct (_exit_count
                (post (epochs_loop iteration epochs train_data test_data w)))
      as [H1 H2].
    split; [lia|]. split; [done|]. split; [|done].
    intros H. specialize (H2 H). lia.
  - rewrite (bind_res_raise _ _ _ _ Hr) in *. cbn [res out] in *.
    rewrite Hloop. split; [lia|]. split; [lia|]. split; [done|].
    intros e' [= <-]. split; [done|]. split; [done|].
    intros ->. by rewrite Hres.
Qed.

(** ** The contexts handed to the callbacks *)

(** Every entry of [extras] is found in [ctx]. *)
Definition wins (extras ctx : Ctx) : Prop :=
  forall k v, extras !! k = Some v -> ctx !! k = Some v.

Lemma dict_update_wins (d extras : Ctx) : wins extras (dict_update d extras).
Proof. intros k v H. unfold dict_update. by apply lookup_union_Some_l. Qed.

Lemma dict_update_lookup_None {V} (d extras : gmap string V) (k : string) :
  extras !! k = None -> dict_update d extras !! k = d !! k.
Proof. intros H. unfold dict_update. by apply lookup_union_r. Qed.

(** In a dispatched context, the registry of its event wins. *)
Definition extras_win (t : Trainer) (ev : Event) : Prop :=
  match ev with
  | EvStartIteration ctx => wins (_start_iteration t) ctx
  | EvEndIteration ctx => wins (_end_iteration t) ctx
  | EvStartEpoch ctx => wins (_start_epoch t) ctx
  | EvEndEpoch ctx => wins (_end_epoch t) ctx
  | EvEndAll ctx => wins (_end_all t) ctx
  | _ => True
  end.

Definition same_registries (t0 t : Trainer) : Prop :=
  _start_iteration t = _start_iteration t0 /\
  _end_iteration t = _end_iteration t0 /\
  _start_epoch t = _start_epoch t0 /\
  _end_epoch t = _end_epoch t0 /\
  _end_all t = _end_all t0.

Lemma same_registries_refl (t : Trainer) : same_registries t t.
Proof. by repeat split. Qed.

Lemma observes_extras_win (t0 : Trainer) :
  observes (same_registries t0) (extras_win t0).
Proof.
  split; try done.
  all: intros t d (H1 & H2 & H3 & H4 & H5); simpl;
    rewrite <- ?H1, <- ?H2, <- ?H3, <- ?H4; apply dict_update_wins.
Qed.

Lemma extras_win_end_all (t0 t : Trainer) (d : Ctx) :
  same_registries t0 t -> extras_win t0 (EvEndAll (dict_update d (_end_all t))).
Proof.
  intros (_ & _ & _ & _ & H5). simpl. rewrite <- H5. apply dict_update_wins.
Qed.

(** C10. In every context dispatched by [train], [test] and [run] (start
    and end of iteration, start and end of epoch, end of run) each entry of
    the registry of that event is present with its registered value: the
    extras are merged after the fixed keys, so an extra registered under the
    name of a fixed tag replaces the fixed value. *)
Theorem registered_extras_replace_fixed_keys (iteration : Iteration)
    (epochs : Z) (data_loader test_data : list Batch) (name : string)
    (w : World) :
  Forall (extras_win (self w)) (out (train iteration data_loader w)) /\
  Forall (extras_win (self w)) (out (test iteration data_loader name w)) /\
  Forall (extras_win (self w))
    (out (run iteration epochs data_loader test_data w)) /\
  forall (fixed extras : Ctx) (tag : string) (v : Value),
    extras !! tag = Some v -> dict_update fixed extras !! tag = Some v.
Proof.
  pose proof (observes_extras_win (self w)) as Hobs.
  pose proof (same_registries_refl (self w)) as Hrefl.
  split; [|split; [|split]].
  - by apply (respects_train iteration _ _ Hobs).
  - by apply (respects_test iteration _ _ Hobs).
  - apply (respects_run iteration _ _ Hobs); try done.
    intros t d H. by apply extras_win_end_all.
  - intros fixed extras tag v. apply dict_update_wins.
Qed.

(** ** Registered extras persist *)

(** The [start_epoch] contexts among the events carry [tag: X]. *)
Definition start_epoch_has (tag : string) (X : Value) (ev : Event) : Prop :=
  forall ctx, ev = EvStartEpoch ctx -> ctx !! tag = Some X.

Lemma observes_start_epoch_has (tag : string) (X : Value) :
  observes (fun t => _start_epoch t !! tag = Some X) (start_epoch_has tag X).
Proof.
  split; try done.
  intros t d H ctx [= <-]. by apply dict_update_wins.
Qed.

Lemma respects_exec_op (iteration : Iteration) (I : Trainer -> Prop)
    (P : Event -> Prop) (op : Op) :
  observes I P ->
  (forall t d, I t -> P (EvEndAll (dict_update d (_end_all t)))) ->
  (forall s, P (EvPrint s)) -> P EvClose ->
  (forall t d, I t -> I (set__start_iteration d t)) ->
  (forall t d, I t -> I (set__end_iteration d t)) ->
  (forall t d, I t -> I (set__end_epoch d t)) ->
  (forall t d, I t -> I (set__end_all d t)) ->
  (forall name data, op = OpRegisterStartEpoch name data ->
     forall t, I t -> I (set__start_epoch (<[name := data]> (_start_epoch t)) t)) ->
  respects I P (exec_op iteration op).
Proof.
  intros Hobs Hall Hprint Hclose H1 H2 H3 H4 H5.
  destruct op; simpl.
  - by apply respects_train.
  - by apply respects_test.
  - by apply respects_run.
  - apply respects_update_self. auto.
  - apply respects_update_self. auto.
  - apply respects_update_self. intros t. by apply (H5 name data).
  - apply respects_update_self. auto.
  - apply respects_update_self. auto.
Qed.

Lemma respects_exec_ops (iteration : Iteration) (I : Trainer -> Prop)
    (P : Event -> Prop) (ops : list Op) (w : World) :
  (forall op, op ∈ ops -> respects I P (exec_op iteration op)) ->
  I (self w) ->
  I (self (exec_ops iteration ops w).1) /\
  Forall P (exec_ops iteration ops w).2.
Proof.
  revert w. induction ops as [|op ops IH]; intros w Hops Hw; simpl.
  - by split.
  - destruct (Hops op (list_elem_of_here _ _) w Hw) as [H1 H2].
    destruct (IH (post (exec_op iteration op w))) as [H3 H4]; [|done|].
    { intros op' Hop'. apply Hops. by apply list_elem_of_further. }
    split; [done|]. by apply Forall_app.
Qed.

(** C7. Registering [X] under [tag] for [start_epoch] stores it whatever
    was registered under that name before.  In the calls that follow,
    as long as none of them registers under [tag] for [start_epoch] again,
    every [start_epoch] context dispatched by [train], [test] or [run]
    has the entry [tag: X], and the registry keeps it.  No call removes the
    name from the registry. *)
Theorem registered_start_epoch_persists (iteration : Iteration)
    (tag : string) (X : Value) (ops : list Op) (w : World) :
  let w1 := post (register_start_epoch tag X w) in
  _start_epoch (self w1) !! tag = Some X /\
  (Forall (fun op => registers_start_epoch tag op = false) ops ->
   Forall (start_epoch_has tag X) (exec_ops iteration ops w1).2 /\
   _start_epoch (self (exec_ops iteration ops w1).1) !! tag = Some X) /\
  is_Some (_start_epoch (self (exec_ops iteration ops w1).1) !! tag).
Proof.
  cbv zeta.
  assert (H1 : _start_epoch (self (post (register_start_epoch tag X w))) !! tag
               = Some X) by apply lookup_insert_eq.
  split; [done|]. split.
  - intros Hops.
    destruct (respects_exec_ops iteration
                (fun t => _start_epoch t !! tag = Some X)
                (start_epoch_has tag X) ops
                (post (register_start_epoch tag X w))) as [H2 H3];
      [|done|by split].
    intros op Hop. apply respects_exec_op; try done.
    + apply observes_start_epoch_has.
    + intros name data -> t Ht. simpl.
      rewrite Forall_forall in Hops. specialize (Hops _ Hop). simpl in Hops.
      apply bool_decide_eq_false in Hops. by rewrite lookup_insert_ne.
  - destruct (respects_exec_ops iteration
                (fun t => is_Some (_start_epoch t !! tag))
                (fun _ => True) ops
                (post (register_start_epoch tag X w))) as [H2 _];
      [|by rewrite H1|done].
    intros op _. apply respects_exec_op; try done.
    intros name data _ t Ht. simpl.
    destruct (decide (name = tag)) as [->|Hne].
    + by rewrite lookup_insert_eq.
    + by rewrite lookup_insert_ne.
Qed.

(** ** The per-batch operation *)

Lemma call_ok_inv {E} (ev : E) (e : Env) (a : unit) :
  res (call ev e) = Ok a ->
  out (call ev e) = [ev] /\ engine (post (call ev e)) = engine e.
Proof.
  intros H. split; [|apply call_engine].
  destruct (call_cases ev e) as [[_ ?]|(x & Hx & _)]; [done|congruence].
Qed.

(** The supervised [iteration] on a pair, with no fault scheduled. *)
Lemma supervised_iteration_returns_loss_output_aux (t : Trainer)
    (input target : Tensor) (e : Env) (m : ModuleId) (f : LossId) :
  model t = SingleModel m ->
  loss_f t = LossCallable f ->
  fault e = None ->
  let input' := tensor_to (_device t) input in
  let target' := tensor_to (_device t) target in
  let output := forward (engine e) m input' in
  let loss := apply_loss f output target' in
  let o := SupervisedTrainer_iteration t [input; target] e in
  (_is_train t = false ->
   res o = Ok (RetTuple [loss; output]) /\
   out o = [EvForward m input'; EvLossF f output target'] /\
   engine (post o) = engine e) /\
  (forall opt, _is_train t = true -> optimizer t = Some (SingleOptim opt) ->
   res o = Ok (RetTuple [loss; output]) /\
   out o = [EvForward m input'; EvLossF f output target';
            EvZeroGrad (optim_id opt); EvBackward loss;
            EvOptimizerStep (optim_id opt)] /\
   count is_optimizer_step (out o) = 1 /\
   engine (post o)
   = optimizer_step (optim_id opt)
       (backward loss (zero_grad (optim_id opt) (engine e)))).
Proof.
  intros Hm Hf He. cbv zeta. unfold SupervisedTrainer_iteration.
  destruct e as [g gr fl]. simpl in He. subst fl.
  cbn [to_device map]. rewrite Hm, Hf. split.
  - intros ->. done.
  - intros opt -> ->. done.
Qed.

(** C3. On a batch [(input, target)], with no fault scheduled, the
    supervised [iteration] returns the pair [(loss, output)] in either mode.
    In evaluation mode it calls the model and the loss function and leaves
    the engine as it was.  In training mode it goes on to clear the
    gradients, back-propagate the loss and step the optimizer once, in that
    order. *)
Theorem supervised_iteration_returns_loss_output (t : Trainer)
    (input target : Tensor) (e : Env) (m : ModuleId) (f : LossId) :
  model t = SingleModel m ->
  loss_f t = LossCallable f ->
  fault e = None ->
  let input' := tensor_to (_device t) input in
  let target' := tensor_to (_device t) target in
  let output := forward (engine e) m input' in
  let loss := apply_loss f output target' in
  let o := SupervisedTrainer_iteration t [input; target] e in
  (_is_train t = false ->
   res o = Ok (RetTuple [loss; output]) /\
   out o = [EvForward m input'; EvLossF f output target'] /\
   engine (post o) = engine e) /\
  (forall opt, _is_train t = true -> optimizer t = Some (SingleOptim opt) ->
   res o = Ok (RetTuple [loss; output]) /\
   out o = [EvForward m input'; EvLossF f output target';
            EvZeroGrad (optim_id opt); EvBackward loss;
            EvOptimizerStep (optim_id opt)] /\
   count is_optimizer_step (out o) = 1 /\
   engine (post o)
   = optimizer_step (optim_id opt)
       (backward loss (zero_grad (optim_id opt) (engine e)))).
Proof. apply supervised_iteration_returns_loss_output_aux. Qed.

(** C5 (as amended). The body of the abstract [iteration] raises nothing:
    called directly it returns [None], makes no call and leaves the
    environment alone.  A missing override is reported when the class is
    instantiated, as a [TypeError]; and the loop, were it to reach the base
    method, fails on unpacking [None], with a [TypeError] when no fault is
    scheduled. *)
Theorem base_iteration_returns_none (t : Trainer) (data : Batch) (e : Env)
    (a : InitArgs) (name : string) (w : World) :
  TrainerBase_iteration t data e = {| res := Ok RetNone; post := e; out := [] |} /\
  res (new TrainerBase a tt) = Raise TypeError /\
  exists x, res (_iteration TrainerBase_iteration data name w) = Raise x /\
            (fault (env w) = None -> x = TypeError).
Proof.
  split; [done|]. split; [done|].
  unfold _iteration. bind_cases H1.
  - unfold lift at 1, map_out, TrainerBase_iteration, bind at 1, ret.
    cbn [res post out unpack_pair]. unfold bind at 1, raise. cbn [res].
    exists TypeError. by split.
  - exists e0. split; [done|]. intros Hf.
    rewrite with_grad_res in H1. unfold lift in H1. cbn [res self env] in H1.
    rewrite call_no_fault in H1; [done|]. simpl. exact Hf.
Qed.

(** What a completed supervised [iteration] has computed. *)
Lemma supervised_iteration_ok_inv (t : Trainer) (input target : Tensor)
    (e : Env) (r : Returned) :
  res (SupervisedTrainer_iteration t [input; target] e) = Ok r ->
  exists m f,
    model t = SingleModel m /\ loss_f t = LossCallable f /\
    let output := forward (engine e) m (tensor_to (_device t) input) in
    let loss := apply_loss f output (tensor_to (_device t) target) in
    r = RetTuple [loss; output] /\
    (_is_train t = true ->
     EvBackward loss ∈ out (SupervisedTrainer_iteration t [input; target] e)).
Proof.
  unfold SupervisedTrainer_iteration. cbn [to_device map].
  destruct (model t) as [m|ms]; [|discriminate].
  destruct (loss_f t) as [f|fs].
  2:{ destruct e as [g gr [[[|n] x after]|]]; vm_compute; discriminate. }
  intros H. exists m, f. split; [done|]. split; [done|]. cbv zeta.
  destruct (_is_train t).
  - destruct (optimizer t) as [[o|os]|].
    + destruct e as [g gr [[[|[|[|[|[|n]]]]] x after]|]];
        vm_compute in H; try discriminate H; injection H as <-;
        (split; [reflexivity|]); intros _; vm_compute;
        do 3 apply list_elem_of_further; apply list_elem_of_here.
    + destruct e as [g gr [[[|[|n]] x after]|]];
        vm_compute in H; discriminate H.
    + destruct e as [g gr [[[|[|n]] x after]|]];
        vm_compute in H; discriminate H.
  - destruct e as [g gr [[[|[|n]] x after]|]];
      vm_compute in H; try discriminate H; injection H as <-;
      (split; [reflexivity|]); intros [=].
Qed.

(** ** The loss reported at the end of an iteration *)

Lemma LOSS_not_overwritten : STEP <> LOSS /\ NAME <> LOSS /\ TRAINER <> LOSS.
Proof.
  pose proof tags_distinct as H. rewrite !NoDup_cons in H.
  destruct H as (_ & Hs & Hn & Ht & _).
  rewrite !not_elem_of_cons in Hs, Hn, Ht. tauto.
Qed.

(** The fixed entries of the [end_iteration] context (lines 145-151). *)
Definition end_iteration_fixed (t : Trainer) (data : Batch) (name : string)
    (loss output : Tensor) : Ctx :=
  dict_literal [(OUTPUT, VTensor (tensor_cpu output));
                (DATA, VData data);
                (MODEL, VModel (model t));
                (LOSS, VScalar (tensor_item (tensor_data loss)));
                (STEP, VInt (_step t));
                (NAME, VStr name);
                (TRAINER, VSelf)].

Lemma end_iteration_fixed_LOSS (t : Trainer) (data : Batch) (name : string)
    (loss output : Tensor) :
  end_iteration_fixed t data name loss output !! LOSS
  = Some (VScalar (tensor_item (tensor_data loss))).
Proof.
  destruct LOSS_not_overwritten as (H1 & H2 & H3).
  unfold end_iteration_fixed, dict_literal. simpl.
  do 3 (rewrite lookup_insert_ne by assumption). apply lookup_insert_eq.
Qed.

(** A dispatch leaves the trainer and the engine alone. *)
Lemma dispatch_frame (b : bool) (ev : Trainer -> Event) (w : World) :
  let o := with_grad b (lift (fun t => call (ev t))) w in
  self (post o) = self w /\
  engine (env (post o)) = engine (env w) /\
  Forall (fun x => x = ev (self w)) (out o).
Proof.
  cbv zeta. rewrite with_grad_out. unfold with_grad, lift.
  cbn [self env post out engine set_grad_enabled].
  split; [done|]. split.
  - by destruct (call_engine (ev (self w)) (set_grad_enabled b (env w)))
      as [-> _].
  - by apply call_out.
Qed.

Lemma lift_map_out_res {E A} (f : E -> Event) (m : Trainer -> M E Env A)
    (w : World) :
  res (lift (fun t => map_out f (m t)) w) = res (m (self w) (env w)).
Proof. done. Qed.

Lemma lift_map_out_out {E A} (f : E -> Event) (m : Trainer -> M E Env A)
    (w : World) :
  out (lift (fun t => map_out f (m t)) w) = map f (out (m (self w) (env w))).
Proof. done. Qed.

(** C6. When the supervised trainer dispatches the end of the iteration on
    a batch [(input, target)], the context is the fixed entries updated with
    the registered extras, and among the fixed entries [LOSS] is the scalar
    read off the loss that the loss function produced for the output of the
    model on that batch; in training mode this loss is the one that was
    back-propagated.  The context reports that scalar under [LOSS] unless an
    extra is registered under that name. *)
Theorem end_iteration_reports_loss (name : string) (input target : Tensor)
    (w : World) (ctx : Ctx) :
  EvEndIteration ctx
    ∈ out (_iteration SupervisedTrainer_iteration [input; target] name w) ->
  exists m f,
    model (self w) = SingleModel m /\ loss_f (self w) = LossCallable f /\
    let output :=
      forward (engine (env w)) m (tensor_to (_device (self w)) input) in
    let loss :=
      apply_loss f output (tensor_to (_device (self w)) target) in
    let fixed :=
      end_iteration_fixed (self w) [input; target] name loss output in
    ctx = dict_update fixed (_end_iteration (self w)) /\
    fixed !! LOSS = Some (VScalar (tensor_item (tensor_data loss))) /\
    (_end_iteration (self w) !! LOSS = None ->
     ctx !! LOSS = Some (VScalar (tensor_item (tensor_data loss)))) /\
    (_is_train (self w) = true ->
     EvEngine (EvBackward loss)
       ∈ out (_iteration SupervisedTrainer_iteration [input; target] name w)).
Proof.
  unfold _iteration.
  match goal with
  | |- context [bind (with_grad false (lift (fun t => call (@?ev t)))) _ w] =>
      destruct (dispatch_frame false ev w) as (Hself & Heng & Hout)
  end.
  cbv zeta in Hself, Heng, Hout.
  bind_cases H1.
  2:{ intros Hin. rewrite Forall_forall in Hout.
      by specialize (Hout _ Hin). }
  bind_cases H2.
  2:{ intros Hin. apply elem_of_app in Hin as [Hin|Hin].
      - rewrite Forall_forall in Hout. by specialize (Hout _ Hin).
      - rewrite lift_map_out_out in Hin.
        apply list_elem_of_fmap in Hin as (x & Hx & _). done. }
  rewrite lift_map_out_res, Hself in H2.
  apply supervised_iteration_ok_inv in H2 as (m & f & Hm & Hf & Hr & Hback).
  rewrite Heng in Hr, Hback. cbv zeta in Hr, Hback. subst a0.
  cbn [unpack_pair]. rewrite bind_ret.
  match goal with
  | |- context [with_grad false
                  (lift (fun t => call (EvEndIteration (@?c t)))) ?w'] =>
      destruct (dispatch_frame false (fun t => EvEndIteration (c t)) w')
        as (_ & _ & Hout')
  end.
  cbv zeta in Hout'. cbn [self post lift] in Hout'. rewrite Hself in Hout'.
  intros Hin. exists m, f. split; [done|]. split; [done|]. cbv zeta.
  assert (Hctx : ctx = dict_update
                   (end_iteration_fixed (self w) [input; target] name
                      (apply_loss f
                         (forward (engine (env w)) m
                            (tensor_to (_device (self w)) input))
                         (tensor_to (_device (self w)) target))
                      (forward (engine (env w)) m
                         (tensor_to (_device (self w)) input)))
                   (_end_iteration (self w))).
  { apply elem_of_app in Hin as [Hin|Hin].
    { rewrite Forall_forall in Hout. by specialize (Hout _ Hin). }
    apply elem_of_app in Hin as [Hin|Hin].
    { rewrite lift_map_out_out in Hin.
      apply list_elem_of_fmap in Hin as (x & Hx & _). done. }
    rewrite Forall_forall in Hout'. specialize (Hout' _ Hin).
    by injection Hout' as ->. }
  split; [done|]. split; [apply end_iteration_fixed_LOSS|]. split.
  - intros Hnone. subst ctx. rewrite dict_update_lookup_None by done.
    apply end_iteration_fixed_LOSS.
  - intros Htrain. apply elem_of_app. right. apply elem_of_app. left.
    rewrite lift_map_out_out, Hself.
    apply list_elem_of_fmap. eexists. split; [done|]. by apply Hback.
Qed.

(** ** Construction *)

Lemma res_bind {E S A B} (m : M E S A) (k : A -> M E S B) (s : S) :
  res (bind m k s)
  = match res (m s) with
    | Ok a => res (k a (post (m s)))
    | Raise e => Raise e
    end.
Proof. unfold bind. by destruct (res (m s)). Qed.

Lemma set_kwargs_collision (class_names : list string)
    (opt_set sched_set : bool) (kwargs : list (string * Value)) (attrs : Ctx)
    (k : string) (v : Value) :
  (k, v) ∈ kwargs ->
  (k ∈ TrainerBase_names ++ class_names) \/
  (k ∈ assigned_names opt_set sched_set) ->
  res (set_kwargs class_names opt_set sched_set kwargs attrs tt)
  = Raise AttributeError.
Proof.
  intros Hin Hk. revert attrs.
  induction kwargs as [|[k' v'] kwargs IH]; intros attrs.
  - by apply not_elem_of_nil in Hin.
  - cbn [set_kwargs].
    destruct (hasattr class_names opt_set sched_set attrs k') eqn:Hh; [done|].
    apply elem_of_cons in Hin as [[= <- <-]|Hin]; [|by apply IH].
    unfold hasattr in Hh.
    apply orb_false_elim in Hh as [Hh _].
    apply orb_false_elim in Hh as [H1 H2].
    apply bool_decide_eq_false in H1, H2. by destruct Hk.
Qed.

(** The key checks of lines 60-65 and 78-83 on their own: a key of the
    optimizer (scheduler) dict that the counterpart lacks raises [KeyError];
    keys of the counterpart that the dict lacks are not looked at. *)
Lemma bind_optimizers_KeyError (modules : gmap string ModuleId)
    (items : list (string * OptimId)) (_opt : gmap string Optim) :
  (exists k, k ∈ items.*1 /\ modules !! k = None) ->
  res (bind_optimizers modules items _opt tt) = Raise KeyError.
Proof.
  revert _opt. induction items as [|[k opt] items IH]; intros _opt (k' & Hin & Hk').
  - by apply not_elem_of_nil in Hin.
  - cbn [bind_optimizers]. destruct (modules !! k) as [m|] eqn:Hk; [|done].
    rewrite res_bind. cbn [emit res post]. apply IH. exists k'.
    split; [|done]. cbn in Hin. apply elem_of_cons in Hin as [->|Hin]; [|done].
    congruence.
Qed.

Lemma bind_optimizers_Ok (modules : gmap string ModuleId)
    (items : list (string * OptimId)) (_opt : gmap string Optim) :
  Forall (fun kv => is_Some (modules !! kv.1)) items ->
  exists _opt', res (bind_optimizers modules items _opt tt) = Ok _opt'.
Proof.
  revert _opt. induction items as [|[k opt] items IH]; intros _opt Hall.
  - by exists _opt.
  - apply Forall_cons in Hall as [[m Hm] Hall]. cbn [bind_optimizers].
    cbn in Hm. rewrite Hm, res_bind. cbn [emit res post]. by apply IH.
Qed.

Lemma TrainerBase_init_keyed (a : InitArgs) :
  keyed a = true -> res (TrainerBase_init a tt) = Raise TypeError.
Proof.
  unfold keyed, TrainerBase_init.
  destruct (arg_model a), (arg_optimizer a), (arg_scheduler a);
    cbn [is_model_dict is_optimizer_dict is_scheduler_dict orb];
    try discriminate; intros _;
    destruct cuda_is_available, (arg_use_cudnn_bnenchmark a); reflexivity.
Qed.

Lemma TrainerBase_init_collision (a : InitArgs) :
  kwargs_collide a ->
  exists e, res (TrainerBase_init a tt) = Raise e /\
            (e = TypeError \/ e = AttributeError).
Proof.
  intros (k & v & Hin & Hk). unfold existing_attribute in Hk.
  pose proof (fun attrs => set_kwargs_collision (arg_class_names a)
                (optimizer_assigned (arg_optimizer a))
                (scheduler_assigned (arg_scheduler a))
                (arg_kwargs a) attrs k v Hin Hk) as Hset.
  unfold TrainerBase_init.
  destruct (arg_model a), (arg_optimizer a), (arg_scheduler a);
    destruct cuda_is_available, (arg_use_cudnn_bnenchmark a);
    cbn [optimizer_assigned scheduler_assigned] in Hset;
    rewrite ?res_bind; cbn; rewrite ?res_bind, ?Hset; eauto.
Qed.

Lemma set_kwargs_ok (class_names : list string) (opt_set sched_set : bool)
    (kwargs : list (string * Value)) (attrs : Ctx) :
  NoDup kwargs.*1 ->
  Forall (fun kv => (kv.1 ∉ TrainerBase_names ++ class_names) /\
                    (kv.1 ∉ assigned_names opt_set sched_set) /\
                    attrs !! kv.1 = None) kwargs ->
  exists attrs',
    res (set_kwargs class_names opt_set sched_set kwargs attrs tt) = Ok attrs'.
Proof.
  revert attrs. induction kwargs as [|[k v] kwargs IH]; intros attrs Hnd Hall.
  - by exists attrs.
  - cbn [set_kwargs]. apply NoDup_cons in Hnd as [Hk Hnd].
    apply Forall_cons in Hall as [(H1 & H2 & H3) Hall]. simpl in H1, H2, H3.
    assert (Hh : hasattr class_names opt_set sched_set attrs k = false).
    { unfold hasattr. rewrite !bool_decide_eq_false_2; [done| |done|done].
      rewrite H3. by intros [? ?]. }
    rewrite Hh. apply IH; [done|].
    rewrite Forall_forall in Hall |- *. intros [k' v'] Hin.
    destruct (Hall _ Hin) as (H1' & H2' & H3'). simpl in *.
    split; [done|]. split; [done|].
    rewrite lookup_insert_ne; [done|]. intros <-. apply Hk.
    apply list_elem_of_fmap. by exists (k, v').
Qed.

(** Keyword arguments that can all be stored. *)
Definition kwargs_fresh (a : InitArgs) : Prop :=
  NoDup (arg_kwargs a).*1 /\
  Forall (fun kv => ~ existing_attribute a kv.1) (arg_kwargs a).

(** C4. Each configuration error makes construction fail.  A dict
    optimizer with a model that is no dict, and a dict scheduler with an
    optimizer that is no dict, raise [TypeError].  A keyed configuration
    whose optimizer (scheduler) keys are not those of the model (optimizer),
    be they extra or missing, raises [TypeError] too: line 40 applies
    [nn.ModuleDict] to the class [dict], so that every keyed configuration
    is refused there.  A keyword argument that collides with an existing
    attribute makes construction fail, with [AttributeError] when the other
    arguments are well-formed.  The supervised trainer refuses a dict model
    with [TypeError]. *)
Theorem configuration_errors_fail (a : InitArgs) :
  (is_optimizer_dict (arg_optimizer a) = true ->
   is_model_dict (arg_model a) = false ->
   res (TrainerBase_init a tt) = Raise TypeError) /\
  (is_scheduler_dict (arg_scheduler a) = true ->
   is_optimizer_dict (arg_optimizer a) = false ->
   res (TrainerBase_init a tt) = Raise TypeError) /\
  (keys_mismatch a -> res (TrainerBase_init a tt) = Raise TypeError) /\
  (kwargs_collide a ->
   (exists e, res (TrainerBase_init a tt) = Raise e /\
              (e = TypeError \/ e = AttributeError)) /\
   forall m o,
     arg_model a = ArgModule m -> arg_optimizer a = ArgOptimizer o ->
     is_scheduler_dict (arg_scheduler a) = false ->
     res (TrainerBase_init a tt) = Raise AttributeError) /\
  (is_model_dict (arg_model a) = true ->
   res (SupervisedTrainer_init a tt) = Raise TypeError /\
   res (new SupervisedTrainer a tt) = Raise TypeError).
Proof.
  split; [|split; [|split; [|split]]].
  - intros H _. apply TrainerBase_init_keyed. unfold keyed.
    rewrite H. by rewrite orb_true_r.
  - intros H _. apply TrainerBase_init_keyed. unfold keyed.
    rewrite H. by rewrite orb_true_r.
  - intros [(md & od & H & _)|(od & sd & H & _)];
      apply TrainerBase_init_keyed; unfold keyed; rewrite H; simpl;
      by rewrite ?orb_true_r.
  - intros Hc. split; [by apply TrainerBase_init_collision|].
    intros m o Hm Ho Hs. destruct Hc as (k & v & Hin & Hk).
    unfold existing_attribute in Hk. rewrite Ho in Hk.
    cbn [optimizer_assigned] in Hk.
    unfold TrainerBase_init. rewrite Hm, Ho.
    destruct (arg_scheduler a); try discriminate Hs;
      cbn [scheduler_assigned] in Hk;
      pose proof (fun sf attrs H => set_kwargs_collision (arg_class_names a)
                    true sf (arg_kwargs a) attrs k v Hin H) as Hset;
      destruct cuda_is_available, (arg_use_cudnn_bnenchmark a);
      rewrite ?res_bind; cbn; rewrite ?res_bind; cbn;
      rewrite Hset; try done.
    all: destruct Hk as [Hk|Hk]; [by left|right]; set_solver.
  - intros H. unfold new, SupervisedTrainer_init. simpl. by rewrite H.
Qed.

Lemma kwargs_fresh_ok (a : InitArgs) :
  kwargs_fresh a ->
  exists attrs,
    res (set_kwargs (arg_class_names a)
           (optimizer_assigned (arg_optimizer a))
           (scheduler_assigned (arg_scheduler a)) (arg_kwargs a) ∅ tt)
    = Ok attrs.
Proof.
  intros [Hnd Hall]. apply set_kwargs_ok; [done|].
  eapply Forall_impl; [exact Hall|]. intros [k v] Hk. simpl in *.
  unfold existing_attribute in Hk. rewrite lookup_empty. tauto.
Qed.

(** C8 (as amended). When the optimizer argument is neither an [Optimizer]
    nor a dict, no branch of lines 52-66 applies: a trainer that is
    constructed has no [optimizer] attribute.  Construction succeeds when
    the model is a module, the scheduler is [None] or an object of another
    kind, and the keyword arguments can be stored.  With a [Scheduler] it
    fails, with [AttributeError], on reading [self.optimizer] (line 72);
    with a dict scheduler it fails with [TypeError]. *)
Theorem unknown_optimizer_leaves_attribute_unset (a : InitArgs) :
  arg_optimizer a = ArgOptimizerOther ->
  (forall t, res (TrainerBase_init a tt) = Ok t -> optimizer t = None) /\
  (forall m, arg_model a = ArgModule m ->
     arg_scheduler a = ArgSchedulerNone \/
     arg_scheduler a = ArgSchedulerOther ->
     kwargs_fresh a ->
     exists t, res (TrainerBase_init a tt) = Ok t /\ optimizer t = None) /\
  (forall m s, arg_model a = ArgModule m -> arg_scheduler a = ArgScheduler s ->
     res (TrainerBase_init a tt) = Raise AttributeError) /\
  (is_scheduler_dict (arg_scheduler a) = true ->
   res (TrainerBase_init a tt) = Raise TypeError).
Proof.
  intros Ho. split; [|split; [|split]].
  - intros t. unfold TrainerBase_init. rewrite Ho.
    destruct (arg_model a), (arg_scheduler a);
      destruct cuda_is_available, (arg_use_cudnn_bnenchmark a);
      rewrite ?res_bind; cbn; rewrite ?res_bind; cbn; try discriminate;
      (destruct (res (set_kwargs _ _ _ _ _ _)); [|discriminate]);
      by intros [= <-].
  - intros m Hm Hs Hfresh.
    destruct (kwargs_fresh_ok a Hfresh) as [attrs Hattrs].
    rewrite Ho in Hattrs. cbn [optimizer_assigned] in Hattrs.
    unfold TrainerBase_init. rewrite Ho, Hm.
    destruct Hs as [Hs|Hs]; rewrite Hs in Hattrs |- *;
      cbn [scheduler_assigned] in Hattrs;
      destruct cuda_is_available, (arg_use_cudnn_bnenchmark a);
      rewrite ?res_bind; cbn; rewrite ?res_bind; cbn;
      rewrite Hattrs; eauto.
  - intros m s Hm Hs. unfold TrainerBase_init. rewrite Ho, Hm, Hs.
    by destruct cuda_is_available, (arg_use_cudnn_bnenchmark a).
  - intros Hs. apply TrainerBase_init_keyed. unfold keyed. rewrite Hs.
    by rewrite orb_true_r.
Qed.

(** ** Runs without faults *)

(** A supervised trainer as its constructor leaves it: one module, a loss
    callable, one optimizer, and no scheduler or one. *)
Definition supervised_ready (t : Trainer) : Prop :=
  (exists m, model t = SingleModel m) /\
  (exists f, loss_f t = LossCallable f) /\
  (exists o, optimizer t = Some (SingleOptim o)) /\
  (_scheduler t = Some NoScheduler \/
   exists s, _scheduler t = Some (SingleSched s)).

Definition calm (w : World) : Prop :=
  fault (env w) = None /\ supervised_ready (self w).

(** From a calm world, [m] returns a value that satisfies [Q] and leaves a
    calm world. *)
Definition completes {A} (m : M Event World A) (Q : A -> Prop) : Prop :=
  forall w, calm w ->
    exists a, res (m w) = Ok a /\ Q a /\ calm (post (m w)).

Lemma completes_ret {A} (a : A) (Q : A -> Prop) : Q a -> completes (ret a) Q.
Proof. intros H w Hw. by exists a. Qed.

Lemma completes_get (Q : World -> Prop) :
  (forall w, calm w -> Q w) -> completes get Q.
Proof. intros H w Hw. exists w. auto. Qed.

Lemma completes_bind {A B} (m : M Event World A) (k : A -> M Event World B)
    (Q : A -> Prop) (Q' : B -> Prop) :
  completes m Q -> (forall a, Q a -> completes (k a) Q') ->
  completes (bind m k) Q'.
Proof.
  intros Hm Hk w Hw. destruct (Hm w Hw) as (a & Ha & HQ & Hc).
  rewrite (bind_res_ok _ _ _ _ Ha). cbn [res post].
  by apply Hk.
Qed.

Lemma completes_update_self (f : Trainer -> Trainer) :
  (forall t, supervised_ready t -> supervised_ready (f t)) ->
  completes (update_self f) (fun _ => True).
Proof.
  intros Hf w [Hw1 Hw2]. exists tt. split; [done|]. split; [done|].
  split; [done|]. by apply Hf.
Qed.

Lemma completes_with_grad {A} (b : bool) (m : M Event World A)
    (Q : A -> Prop) :
  completes m Q -> completes (with_grad b m) Q.
Proof.
  intros Hm w [Hw1 Hw2].
  destruct (Hm {| self := self w; env := set_grad_enabled b (env w) |})
    as (a & Ha & HQ & Hc1 & Hc2); [by split|].
  exists a. rewrite with_grad_res. split; [done|]. split; [done|].
  by split.
Qed.

Lemma completes_call (ev : Trainer -> Event) :
  completes (lift (fun t => call (ev t))) (fun _ => True).
Proof.
  intros w [Hw1 Hw2]. exists tt. unfold lift.
  rewrite (call_no_fault _ _ Hw1).
  split; [done|]. split; [done|]. split; assumption.
Qed.

Lemma completes_for_each {A} (l : list A) (body : A -> M Event World unit) :
  (forall x, x ∈ l -> completes (body x) (fun _ => True)) ->
  completes (for_each l body) (fun _ => True).
Proof.
  induction l as [|x l IH]; intros Hb; simpl.
  - by apply completes_ret.
  - eapply completes_bind; [apply Hb, list_elem_of_here|].
    intros _ _. apply IH. intros y Hy. by apply Hb, list_elem_of_further.
Qed.

Lemma supervised_ready_set__step (z : Z) (t : Trainer) :
  supervised_ready t -> supervised_ready (set__step z t).
Proof. done. Qed.

Lemma supervised_ready_set__epoch (z : Z) (t : Trainer) :
  supervised_ready t -> supervised_ready (set__epoch z t).
Proof. done. Qed.

Lemma supervised_ready_set__is_train (b : bool) (t : Trainer) :
  supervised_ready t -> supervised_ready (set__is_train b t).
Proof. done. Qed.

Lemma completes_supervised_iteration (input target : Tensor) :
  completes
    (lift (fun t =>
             map_out EvEngine (SupervisedTrainer_iteration t [input; target])))
    (fun r => exists loss output, r = RetTuple [loss; output]).
Proof.
  intros w [Hw1 Hw2].
  destruct Hw2 as ((m & Hm) & (f & Hf) & (o & Ho) & Hs).
  pose proof (supervised_iteration_returns_loss_output_aux (self w) input
                target (env w) m f Hm Hf Hw1) as [Heval Htrain].
  rewrite lift_map_out_res.
  assert (Hpost : fault (post (SupervisedTrainer_iteration (self w)
                                 [input; target] (env w))) = None).
  { unfold SupervisedTrainer_iteration. cbn [to_device map].
    rewrite Hm, Hf, Ho. destruct (env w) as [g gr fl]. simpl in Hw1.
    subst fl. by destruct (_is_train (self w)). }
  destruct (_is_train (self w)) eqn:Ht.
  - destruct (Htrain o eq_refl Ho) as (-> & _).
    eexists. split; [done|]. split; [eauto|]. split; [done|].
    by repeat split; eauto.
  - destruct (Heval eq_refl) as (-> & _).
    eexists. split; [done|]. split; [eauto|]. split; [done|].
    by repeat split; eauto.
Qed.

Lemma completes__iteration (data : Batch) (name : string) :
  length data = 2 ->
  completes (_iteration SupervisedTrainer_iteration data name)
    (fun _ => True).
Proof.
  intros Hlen. destruct data as [|input [|target [|]]]; try discriminate.
  unfold _iteration.
  eapply completes_bind; [apply completes_with_grad, completes_call|].
  intros _ _.
  eapply completes_bind; [apply completes_supervised_iteration|].
  intros r (loss & output & ->). cbn [unpack_pair].
  eapply (completes_bind _ _ (fun _ => True)); [by apply completes_ret|].
  intros lo _. apply completes_with_grad, completes_call.
Qed.

Lemma completes_getattr_optimizer :
  completes (getattr optimizer) (fun _ => True).
Proof.
  intros w [Hw1 Hw2]. pose proof Hw2 as (_ & _ & (o & Ho) & _).
  unfold getattr. rewrite Ho. by exists (SingleOptim o).
Qed.

Lemma completes__loop (data_loader : list Batch) (name : string) :
  Forall (fun data => length data = 2) data_loader ->
  completes (_loop SupervisedTrainer_iteration data_loader name)
    (fun _ => True).
Proof.
  intros Hdata w Hw. rewrite _loop_unfold. revert w Hw.
  change (completes
            (dispatch_start_epoch name ;;
             for_each data_loader (loop_body SupervisedTrainer_iteration name) ;;
             dispatch_end_epoch (length data_loader) name) (fun _ => True)).
  eapply completes_bind; [apply completes_with_grad, completes_call|].
  intros _ _. eapply completes_bind.
  - apply completes_for_each. intros data Hin.
    rewrite Forall_forall in Hdata. unfold loop_body.
    eapply completes_bind; [by apply completes__iteration, Hdata|].
    intros _ _.
    eapply (completes_bind _ _ (fun _ => True)); [by apply completes_get|].
    intros w' _. destruct (_is_train (self w')).
    + apply completes_update_self. intros t.
      apply supervised_ready_set__step.
    + by apply completes_ret.
  - intros _ _. apply completes_with_grad.
    eapply completes_bind; [apply completes_getattr_optimizer|].
    intros o _. apply completes_call.
Qed.

Lemma completes_train (data_loader : list Batch) :
  Forall (fun data => length data = 2) data_loader ->
  completes (train SupervisedTrainer_iteration data_loader) (fun _ => True).
Proof.
  intros Hdata. unfold train.
  eapply completes_bind.
  { apply completes_update_self. intros t.
    apply supervised_ready_set__is_train. }
  intros _ _. eapply completes_bind; [apply (completes_call (fun _ => _))|].
  intros _ _.
  eapply completes_bind; [by apply completes_with_grad, completes__loop|].
  intros _ _.
  eapply (completes_bind _ _
            (fun s => s = NoScheduler \/ exists x, s = SingleSched x)).
  { intros w [Hw1 Hw2]. pose proof Hw2 as (_ & _ & _ & Hs).
    unfold getattr.
    destruct Hs as [Hs|[x Hs]]; rewrite Hs; eexists;
      (split; [reflexivity|]); (split; [eauto|]); split; assumption. }
  intros s Hs. eapply (completes_bind _ _ (fun _ => True)).
  - destruct Hs as [->|[x ->]]; [by apply completes_ret|].
    intros w [Hw1 Hw2]. exists tt. unfold lift.
    rewrite (bind_res_ok _ _ _ tt); rewrite (call_no_fault _ _ Hw1);
      [|done].
    split; [done|]. split; [done|]. split; assumption.
  - intros _ _. apply completes_update_self. intros t.
    apply supervised_ready_set__epoch.
Qed.

(** C1. For a data source of [n] batches, a call to [train] that returns
    has advanced the step counter by [n], once per batch, and the epoch
    counter by 1; a call to [test] leaves both counters as they were,
    however it ends.  The supervised [train] does return when no fault is
    scheduled and the batches are pairs. *)
Theorem train_test_counters (iteration : Iteration) (data_loader : list Batch)
    (name : string) (w : World) :
  (res (train iteration data_loader w) = Ok tt ->
   _step (self (post (train iteration data_loader w)))
   = (_step (self w) + Z.of_nat (length data_loader))%Z /\
   _epoch (self (post (train iteration data_loader w)))
   = (_epoch (self w) + 1)%Z) /\
  (_step (self (post (test iteration data_loader name w))) = _step (self w) /\
   _epoch (self (post (test iteration data_loader name w)))
   = _epoch (self w)) /\
  (calm w -> Forall (fun data => length data = 2) data_loader ->
   res (train SupervisedTrainer_iteration data_loader w) = Ok tt).
Proof.
  split; [|split].
  - intros H. by rewrite (train_self _ _ _ H).
  - by rewrite test_self.
  - intros Hw Hdata.
    by destruct (completes_train data_loader Hdata w Hw) as ([] & -> & _).
Qed.

(** * Further properties *)

(** ** Relations between the world before and after a call

    [view w] is what the trainer's own code can change of a world besides
    the grad mode and the schedule of faults: the trainer and the engine.
    [relates R m]: [R] holds between the view before [m] and the view after,
    however [m] ends. *)

Definition view (w : World) : Trainer * Engine := (self w, engine (env w)).

Definition relates (R : Trainer * Engine -> Trainer * Engine -> Prop) {A}
    (m : M Event World A) : Prop :=
  forall w, R (view w) (view (post (m w))).

Section Relates.
Variable R : Trainer * Engine -> Trainer * Engine -> Prop.
Hypothesis R_refl : forall v, R v v.
Hypothesis R_trans : forall v1 v2 v3, R v1 v2 -> R v2 v3 -> R v1 v3.

Lemma relates_ret {A} (a : A) : relates R (ret a).
Proof. intros w. apply R_refl. Qed.

Lemma relates_raise {A} (e : Exn) : relates R (@raise _ _ A e).
Proof. intros w. apply R_refl. Qed.

Lemma relates_get : relates R get.
Proof. intros w. apply R_refl. Qed.

Lemma relates_emit (ev : Event) : relates R (emit ev).
Proof. intros w. apply R_refl. Qed.

Lemma relates_getattr {A} (field : Trainer -> option A) :
  relates R (getattr field).
Proof. intros w. unfold getattr. destruct (field (self w)); apply R_refl. Qed.

Lemma relates_bind {A B} (m : M Event World A) (k : A -> M Event World B) :
  relates R m -> (forall a, relates R (k a)) -> relates R (bind m k).
Proof.
  intros Hm Hk w. unfold bind. destruct (res (m w)) as [a|e]; [|apply Hm].
  cbn [post]. eapply R_trans; [apply Hm | apply Hk].
Qed.

Lemma relates_update_self (f : Trainer -> Trainer) :
  (forall t g, R (t, g) (f t, g)) -> relates R (update_self f).
Proof. intros Hf w. apply Hf. Qed.

Lemma relates_lift {A} (m : Trainer -> M Event Env A) :
  (forall t e, R (t, engine e) (t, engine (post (m t e)))) ->
  relates R (lift m).
Proof. intros Hm w. apply Hm. Qed.

Lemma relates_lift_call (ev : Trainer -> Event) :
  relates R (lift (fun t => call (ev t))).
Proof.
  apply relates_lift. intros t e.
  destruct (call_engine (ev t) e) as [-> _]. apply R_refl.
Qed.

Lemma relates_with_grad {A} (b : bool) (m : M Event World A) :
  relates R m -> relates R (with_grad b m).
Proof.
  intros Hm w.
  apply (Hm {| self := self w; env := set_grad_enabled b (env w) |}).
Qed.

Lemma relates_for_each {A} (l : list A) (body : A -> M Event World unit) :
  (forall x, relates R (body x)) -> relates R (for_each l body).
Proof.
  intros Hb. induction l as [|x l IH]; simpl.
  - apply relates_ret.
  - apply relates_bind; [apply Hb | intros _; apply IH].
Qed.

Lemma relates_try_except {A} (body handler : M Event World A)
    (catches : Exn -> bool) :
  relates R body -> relates R handler ->
  relates R (try_except body catches handler).
Proof.
  intros Hb Hh w. unfold try_except.
  destruct (res (body w)) as [a|e]; [apply Hb|].
  destruct (catches e); [|apply Hb]. cbn [post].
  eapply R_trans; [apply Hb | apply Hh].
Qed.

Lemma relates_try_finally {A} (body : M Event World A)
    (cleanup : M Event World unit) :
  relates R body -> relates R cleanup ->
  relates R (try_finally body cleanup).
Proof.
  intros Hb Hc w. unfold try_finally. cbn [post].
  eapply R_trans; [apply Hb | apply Hc].
Qed.

End Relates.

Ltac relates_step :=
  match goal with
  | |- relates _ (bind _ _) => apply relates_bind; [assumption | | intros ?]
  | |- relates _ (with_grad _ _) => apply relates_with_grad
  | |- relates _ (ret _) => apply relates_ret; assumption
  | |- relates _ (raise _) => apply relates_raise; assumption
  | |- relates _ get => apply relates_get; assumption
  | |- relates _ (emit _) => apply relates_emit; assumption
  | |- relates _ (getattr _) => apply relates_getattr; assumption
  | |- relates _ (for_each _ _) =>
      apply relates_for_each; [assumption | assumption | intros ?]
  | |- relates _ (try_except _ _ _) =>
      apply relates_try_except; [assumption | | ]
  | |- relates _ (try_finally _ _) =>
      apply relates_try_finally; [assumption | | ]
  | |- relates _ (lift (fun t => call _)) =>
      apply relates_lift_call; assumption
  | |- relates _ (if ?b then _ else _) => destruct b
  | |- relates _ (match ?x with _ => _ end) => destruct x
  end.

(** What a relation must allow for the batch loop to keep it: the
    assignment to the step counter and the calls of the per-batch
    operation. *)
Record allows_loop (iteration : Iteration)
    (R : Trainer * Engine -> Trainer * Engine -> Prop) : Prop := {
  al_refl : forall v, R v v;
  al_trans : forall v1 v2 v3, R v1 v2 -> R v2 v3 -> R v1 v3;
  al_step : forall t g, R (t, g) (set__step (_step t + 1) t, g);
  al_iteration :
    forall t data e,
      R (t, engine e) (t, engine (post (iteration t data e)))
}.

(** And for the whole life cycle: the assignments to the epoch counter and
    to the mode flag, and the call of the scheduler. *)
Record allows (iteration : Iteration)
    (R : Trainer * Engine -> Trainer * Engine -> Prop) : Prop := {
  al_loop : allows_loop iteration R;
  al_epoch : forall t g, R (t, g) (set__epoch (_epoch t + 1) t, g);
  al_is_train : forall b t g, R (t, g) (set__is_train b t, g);
  al_scheduler :
    forall t s e,
      R (t, engine e)
        (t, engine (post ((call (E := Event) (EvSchedulerStep s) ;;
                           update_engine (scheduler_step s)) e)))
}.

Section AllowedLoop.
Variable iteration : Iteration.
Variable R : Trainer * Engine -> Trainer * Engine -> Prop.
Hypothesis al : allows_loop iteration R.

Lemma relates__iteration (data : Batch) (name : string) :
  relates R (_iteration iteration data name).
Proof.
  destruct al. unfold _iteration, unpack_pair.
  repeat first
    [ relates_step
    | apply relates_lift; intros t e; apply (al_iteration0 t data e) ].
Qed.

Lemma relates__loop (data_loader : list Batch) (name : string) :
  relates R (_loop iteration data_loader name).
Proof.
  pose proof relates__iteration as Hit. destruct al. unfold _loop.
  repeat first
    [ apply Hit | apply relates_update_self; intros; apply al_step0
    | relates_step ].
Qed.

End AllowedLoop.

Section Allowed.
Variable iteration : Iteration.
Variable R : Trainer * Engine -> Trainer * Engine -> Prop.
Hypothesis al : allows iteration R.

Lemma relates_test (data_loader : list Batch) (name : string) :
  relates R (test iteration data_loader name).
Proof.
  destruct al as [al' ? ? ?].
  pose proof (relates__loop iteration R al') as Hloop.
  destruct al'. unfold test.
  repeat first
    [ apply Hloop | apply relates_update_self; intros; apply al_is_train0
    | relates_step ].
Qed.

Lemma relates_train (data_loader : list Batch) :
  relates R (train iteration data_loader).
Proof.
  destruct al as [al' ? ? ?].
  pose proof (relates__loop iteration R al') as Hloop.
  destruct al'. unfold train.
  repeat first
    [ apply Hloop
    | apply relates_update_self; intros; apply al_is_train0
    | apply relates_update_self; intros; apply al_epoch0
    | apply relates_lift; intros; apply al_scheduler0
    | relates_step ].
Qed.

Lemma relates__exit : relates R _exit.
Proof. destruct al as [[] ? ? ?]. unfold _exit. repeat relates_step. Qed.

Lemma relates_run (epochs : Z) (train_data test_data : list Batch) :
  relates R (run iteration epochs train_data test_data).
Proof.
  pose proof relates_train as Htrain. pose proof relates_test as Htest.
  pose proof relates__exit as Hexit.
  destruct al as [[] ? ? ?]. unfold run, epochs_loop.
  repeat first [ apply Htrain | apply Htest | apply Hexit | relates_step ].
Qed.

End Allowed.

(** ** What never changes after construction *)

(** [t'] is a later state of [t]: the configuration is the same, the
    counters have not decreased, and the registries have lost no name. *)
Definition evolves (t t' : Trainer) : Prop :=
  _device t' = _device t /\ model t' = model t /\
  _is_single_model t' = _is_single_model t /\
  optimizer t' = optimizer t /\ _scheduler t' = _scheduler t /\
  loss_f t' = loss_f t /\ _callbacks t' = _callbacks t /\
  _verb t' = _verb t /\ kwattrs t' = kwattrs t /\
  (_step t <= _step t')%Z /\ (_epoch t <= _epoch t')%Z /\
  dom (_start_iteration t) ⊆ dom (_start_iteration t') /\
  dom (_end_iteration t) ⊆ dom (_end_iteration t') /\
  dom (_start_epoch t) ⊆ dom (_start_epoch t') /\
  dom (_end_epoch t) ⊆ dom (_end_epoch t') /\
  dom (_end_all t) ⊆ dom (_end_all t').

Lemma evolves_refl (t : Trainer) : evolves t t.
Proof. unfold evolves. repeat split; (done || lia). Qed.

Lemma evolves_trans (t1 t2 t3 : Trainer) :
  evolves t1 t2 -> evolves t2 t3 -> evolves t1 t3.
Proof.
  unfold evolves. intros H12 H23.
  destruct H12 as (?&?&?&?&?&?&?&?&?&?&?&?&?&?&?&?).
  destruct H23 as (?&?&?&?&?&?&?&?&?&?&?&?&?&?&?&?).
  repeat split; try congruence; try lia; by etrans.
Qed.

Lemma allows_evolves (iteration : Iteration) :
  allows iteration (fun v v' => evolves v.1 v'.1).
Proof.
  split; [split|..]; simpl.
  - intros v. apply evolves_refl.
  - intros v1 v2 v3. apply evolves_trans.
  - intros t g. unfold evolves. simpl. repeat split; (done || lia).
  - intros t data e. apply evolves_refl.
  - intros t g. unfold evolves. simpl. repeat split; (done || lia).
  - intros b t g. unfold evolves. simpl. repeat split; (done || lia).
  - intros t s e. apply evolves_refl.
Qed.

Lemma relates_exec_op_evolves (iteration : Iteration) (op : Op) :
  relates (fun v v' => evolves v.1 v'.1) (exec_op iteration op).
Proof.
  pose proof (allows_evolves iteration) as Hal.
  destruct op; simpl.
  - by apply relates_train.
  - by apply relates_test.
  - by apply relates_run.
  - intros w. unfold evolves. simpl. repeat split; try (done || lia).
    rewrite dom_insert_L. set_solver.
  - intros w. unfold evolves. simpl. repeat split; try (done || lia).
    rewrite dom_insert_L. set_solver.
  - intros w. unfold evolves. simpl. repeat split; try (done || lia).
    rewrite dom_insert_L. set_solver.
  - intros w. unfold evolves. simpl. repeat split; try (done || lia).
    rewrite dom_insert_L. set_solver.
  - intros w. unfold evolves. simpl. repeat split; try (done || lia).
    rewrite dom_insert_L. set_solver.
Qed.

(** X1. Through any sequence of [train], [test], [run] and registration
    calls, however each of them ends, the trainer keeps its model,
    optimizer, scheduler, loss function, callbacks, device and stored
    keyword arguments; its counters never decrease; and no registry loses a
    name. *)
Theorem configuration_is_kept (iteration : Iteration) (ops : list Op)
    (w : World) :
  evolves (self w) (self (exec_ops iteration ops w).1).
Proof.
  revert w. induction ops as [|op ops IH]; intros w; simpl.
  - apply evolves_refl.
  - eapply evolves_trans; [|apply IH].
    apply (relates_exec_op_evolves iteration op w).
Qed.

(** ** Evaluation does not train *)

Definition is_gradient_call (ev : EngineEvent) : bool :=
  match ev with
  | EvZeroGrad _ | EvBackward _ | EvOptimizerStep _ => true
  | _ => false
  end.

(** The calls that an evaluation epoch may make. *)
Definition evaluation_call (ev : Event) : Prop :=
  match ev with
  | EvEngine e => is_gradient_call e = false
  | EvSchedulerStep _ | EvModelTrain => False
  | _ => True
  end.

Lemma supervised_eval_keeps_engine (t : Trainer) (data : Batch) (e : Env) :
  _is_train t = false ->
  engine (post (SupervisedTrainer_iteration t data e)) = engine e /\
  Forall (fun ev => is_gradient_call ev = false)
    (out (SupervisedTrainer_iteration t data e)).
Proof.
  intros Ht. unfold SupervisedTrainer_iteration. cbn [to_device].
  destruct data as [|input [|target [|x data]]]; cbn [map];
    try (split; [reflexivity | constructor]).
  rewrite Ht.
  destruct (model t) as [m|ms]; [|split; [reflexivity | constructor]].
  destruct (loss_f t) as [f|fs];
    destruct e as [g gr [[[|[|n]] x after]|]];
    try destruct after; vm_compute; split; try reflexivity;
    repeat constructor.
Qed.

Lemma bind_update_self {B} (f : Trainer -> Trainer)
    (k : unit -> M Event World B) (w : World) :
  bind (update_self f) k w = k tt {| self := f (self w); env := env w |}.
Proof.
  unfold bind, update_self, modify. cbn [res post out].
  by destruct (k tt _).
Qed.

Lemma allows_loop_eval :
  allows_loop SupervisedTrainer_iteration
    (fun v v' => _is_train v.1 = false ->
                 _is_train v'.1 = false /\ v'.2 = v.2).
Proof.
  split; simpl.
  - by intros v.
  - intros v1 v2 v3 H12 H23 H1. destruct (H12 H1) as [H2 E2].
    destruct (H23 H2) as [H3 E3]. split; [done|]. congruence.
  - by intros t g.
  - intros t data e Ht. split; [done|].
    by apply supervised_eval_keeps_engine.
Qed.

Lemma respects_eval__iteration (data : Batch) (name : string) :
  respects (fun t => _is_train t = false) evaluation_call
    (_iteration SupervisedTrainer_iteration data name).
Proof.
  unfold _iteration, unpack_pair.
  repeat first
    [ apply respects_lift; intros t Ht e; cbn [map_out out];
      apply Forall_map;
      destruct (supervised_eval_keeps_engine t data e Ht) as [_ H];
      exact H
    | respects_step ]; simpl; auto.
Qed.

Lemma respects_eval__loop (data_loader : list Batch) (name : string) :
  respects (fun t => _is_train t = false) evaluation_call
    (_loop SupervisedTrainer_iteration data_loader name).
Proof.
  pose proof respects_eval__iteration as Hit. unfold _loop.
  repeat first
    [ apply Hit | apply respects_update_self; auto | respects_step ];
    simpl; auto.
Qed.

(** X2. A call to [test] on the supervised trainer, however it ends, leaves
    the engine (parameters, gradients, optimizer state) as it was, and makes
    no [zero_grad], [backward], optimizer or scheduler call and no
    [model.train()] call. *)
Theorem test_does_not_train (data_loader : list Batch) (name : string)
    (w : World) :
  engine (env (post (test SupervisedTrainer_iteration data_loader name w)))
  = engine (env w) /\
  Forall evaluation_call
    (out (test SupervisedTrainer_iteration data_loader name w)).
Proof.
  unfold test. rewrite bind_update_self.
  set (w1 := {| self := set__is_train false (self w); env := env w |}).
  split.
  - assert (H : relates
             (fun v v' => _is_train v.1 = false ->
                          _is_train v'.1 = false /\ v'.2 = v.2)
             (lift (fun _ => call EvModelEval) ;;
              with_grad false
                (_loop SupervisedTrainer_iteration data_loader name))).
    { pose proof (relates__loop _ _ allows_loop_eval) as Hloop.
      destruct allows_loop_eval.
      repeat first [ apply Hloop | relates_step ]. }
    destruct (H w1 eq_refl) as [_ E]. exact E.
  - assert (H : respects (fun t => _is_train t = false) evaluation_call
             (lift (fun _ => call EvModelEval) ;;
              with_grad false
                (_loop SupervisedTrainer_iteration data_loader name))).
    { pose proof respects_eval__loop as Hloop.
      repeat first [ apply Hloop | respects_step ]; simpl; auto. }
    by apply (H w1).
Qed.

(** ** Training folds the batches into the engine *)

(** The engine after the supervised iteration on one batch, when every call
    completes. *)
Definition batch_update (t : Trainer) (g : Engine) (data : Batch) : Engine :=
  match to_device t data, model t, loss_f t, optimizer t with
  | [input; target], SingleModel m, LossCallable f, Some (SingleOptim o) =>
      if _is_train t then
        let loss := apply_loss f (forward g m input) target in
        optimizer_step (optim_id o)
          (backward loss (zero_grad (optim_id o) g))
      else g
  | _, _, _, _ => g
  end.

(** The engine after the scheduler call of [train]. *)
Definition scheduler_update (t : Trainer) (g : Engine) : Engine :=
  match _scheduler t with
  | Some (SingleSched s) => scheduler_step (sched_id s) g
  | _ => g
  end.

(** From a calm world, [m] returns a value and leaves a calm world, and [Q]
    relates the view before, the value and the view after. *)
Definition runs {A} (m : M Event World A)
    (Q : Trainer * Engine -> A -> Trainer * Engine -> Prop) : Prop :=
  forall w, calm w ->
    exists a, res (m w) = Ok a /\ calm (post (m w)) /\
              Q (view w) a (view (post (m w))).

Lemma runs_ret {A} (a : A) :
  runs (ret a) (fun v b v' => b = a /\ v' = v).
Proof. intros w Hw. by exists a. Qed.

Lemma runs_get : runs get (fun v a v' => view a = v /\ v' = v).
Proof. intros w Hw. by exists w. Qed.

Lemma runs_bind {A B} (m : M Event World A) (k : A -> M Event World B)
    (Q1 : Trainer * Engine -> A -> Trainer * Engine -> Prop)
    (Q2 : A -> Trainer * Engine -> B -> Trainer * Engine -> Prop) :
  runs m Q1 ->
  (forall a, (exists v v', Q1 v a v') -> runs (k a) (Q2 a)) ->
  runs (bind m k)
    (fun v b v'' => exists a v', Q1 v a v' /\ Q2 a v' b v'').
Proof.
  intros Hm Hk w Hw. destruct (Hm w Hw) as (a & Ha & Hc & HQ).
  destruct (Hk a (ex_intro _ _ (ex_intro _ _ HQ)) _ Hc) as (b & Hb & Hc' & HQ').
  exists b. rewrite (bind_res_ok _ _ _ _ Ha). cbn [res post].
  split; [done|]. split; [done|]. eauto.
Qed.

Lemma runs_weaken {A} (m : M Event World A)
    (Q Q' : Trainer * Engine -> A -> Trainer * Engine -> Prop) :
  runs m Q -> (forall v a v', Q v a v' -> Q' v a v') -> runs m Q'.
Proof.
  intros Hm HQ w Hw. destruct (Hm w Hw) as (a & Ha & Hc & H).
  exists a. auto.
Qed.

Lemma runs_update_self (f : Trainer -> Trainer) :
  (forall t, supervised_ready t -> supervised_ready (f t)) ->
  runs (update_self f) (fun v _ v' => v' = (f v.1, v.2)).
Proof.
  intros Hf w [Hw1 Hw2]. exists tt. split; [done|]. split; [|done].
  split; [done|]. by apply Hf.
Qed.

Lemma runs_with_grad {A} (b : bool) (m : M Event World A)
    (Q : Trainer * Engine -> A -> Trainer * Engine -> Prop) :
  runs m Q -> runs (with_grad b m) Q.
Proof.
  intros Hm w [Hw1 Hw2].
  destruct (Hm {| self := self w; env := set_grad_enabled b (env w) |})
    as (a & Ha & [Hc1 Hc2] & HQ); [by split|].
  exists a. rewrite with_grad_res. split; [done|]. split; [by split|].
  exact HQ.
Qed.

Lemma runs_call (ev : Trainer -> Event) :
  runs (lift (fun t => call (ev t))) (fun v _ v' => v' = v).
Proof.
  intros w [Hw1 Hw2]. exists tt. unfold lift.
  rewrite (call_no_fault _ _ Hw1).
  split; [done|]. split; [split; assumption | done].
Qed.

Lemma runs_for_each {A} (l : list A) (body : A -> M Event World unit)
    (F : Trainer * Engine -> A -> Trainer * Engine) :
  (forall x, x ∈ l -> runs (body x) (fun v _ v' => v' = F v x)) ->
  runs (for_each l body) (fun v _ v' => v' = foldl F v l).
Proof.
  induction l as [|x l IH]; intros Hb; simpl.
  - eapply runs_weaken; [apply runs_ret|]. by intros v a v' [_ ->].
  - eapply runs_weaken.
    + eapply runs_bind; [apply Hb, list_elem_of_here|].
      intros a _. apply IH. intros y Hy. by apply Hb, list_elem_of_further.
    + intros v a v'' (a' & v' & H1 & H2). by subst.
Qed.

Lemma runs_supervised_iteration (input target : Tensor) :
  runs
    (lift (fun t =>
             map_out EvEngine (SupervisedTrainer_iteration t [input; target])))
    (fun v r v' =>
       (exists loss output, r = RetTuple [loss; output]) /\
       v' = (v.1, batch_update v.1 v.2 [input; target])).
Proof.
  intros w [Hw1 Hw2].
  destruct Hw2 as ((m & Hm) & (f & Hf) & (o & Ho) & Hs).
  assert (Hready : supervised_ready (self w)) by (repeat split; eauto).
  rewrite lift_map_out_res. unfold view, lift, map_out. cbn [post self env].
  unfold batch_update, SupervisedTrainer_iteration. cbn [to_device map fst snd].
  rewrite Hm, Hf, Ho. destruct (env w) as [g gr fl]. simpl in Hw1. subst fl.
  destruct (_is_train (self w)); eexists;
    (split; [reflexivity|]); (split; [split; [reflexivity | exact Hready]|]);
    (split; [eauto | reflexivity]).
Qed.

Lemma runs__iteration (input target : Tensor) (name : string) :
  runs (_iteration SupervisedTrainer_iteration [input; target] name)
    (fun v _ v' => v' = (v.1, batch_update v.1 v.2 [input; target])).
Proof.
  unfold _iteration. eapply runs_weaken.
  - eapply runs_bind; [apply runs_with_grad, runs_call|]. intros a _.
    eapply (runs_bind _ _ _ (fun _ v _ v' => v' = v));
      [apply runs_supervised_iteration|].
    intros r (v & v' & (loss & output & ->) & _). cbn [unpack_pair].
    eapply runs_weaken.
    + eapply runs_bind; [apply runs_ret|]. intros lo _.
      apply runs_with_grad, runs_call.
    + intros v0 a0 v0' H. cbv beta in H.
      destruct H as (lo & v3 & [_ H3] & H4). by subst.
  - intros v a v' H. cbv beta in H.
    destruct H as (a1 & v1 & H1 & r & v2 & [_ H2] & H3).
    by subst.
Qed.

Lemma batch_update_stepped (k : nat) (t : Trainer) :
  batch_update (stepped k t) = batch_update t.
Proof. unfold stepped. by destruct (_is_train t). Qed.

Lemma runs_loop_body (data : Batch) (name : string) :
  length data = 2 ->
  runs (loop_body SupervisedTrainer_iteration name data)
    (fun v _ v' => v' = (stepped 1 v.1, batch_update v.1 v.2 data)).
Proof.
  intros Hlen. destruct data as [|input [|target [|]]]; try discriminate.
  unfold loop_body. eapply runs_weaken.
  - eapply runs_bind; [apply runs__iteration|]. intros a _.
    eapply runs_bind; [apply runs_get|]. intros w' _.
    apply (runs_weaken _
             (fun v _ v' =>
                v' = ((if _is_train (self w')
                       then set__step (_step v.1 + 1) v.1 else v.1), v.2))).
    + destruct (_is_train (self w')).
      * apply (runs_update_self (fun t => set__step (_step t + 1) t)).
        intros t. apply supervised_ready_set__step.
      * eapply runs_weaken; [apply runs_ret|]. intros [t g] a' v' [_ ->]. done.
    + intros v a' v' H. exact H.
  - intros [t g] a v' H. cbv beta in H.
    destruct H as (a1 & v1 & H1 & w' & v2 & [Hw' H2] & H3). subst. simpl.
    unfold view in Hw'. injection Hw' as Hself _. rewrite Hself.
    unfold stepped. simpl. by destruct (_is_train t).
Qed.

Lemma foldl_loop_body (l : list Batch) (t : Trainer) (g : Engine) :
  foldl (fun v data => (stepped 1 v.1, batch_update v.1 v.2 data)) (t, g) l
  = (stepped (length l) t, foldl (batch_update t) g l).
Proof.
  revert t g. induction l as [|data l IH]; intros t g; simpl.
  - by rewrite stepped_0.
  - by rewrite IH, stepped_S, batch_update_stepped.
Qed.

Lemma runs__loop (data_loader : list Batch) (name : string) :
  Forall (fun data => length data = 2) data_loader ->
  runs (_loop SupervisedTrainer_iteration data_loader name)
    (fun v _ v' =>
       v' = (stepped (length data_loader) v.1,
             foldl (batch_update v.1) v.2 data_loader)).
Proof.
  intros Hdata w Hw. rewrite _loop_unfold. revert w Hw.
  change (runs
            (dispatch_start_epoch name ;;
             for_each data_loader (loop_body SupervisedTrainer_iteration name) ;;
             dispatch_end_epoch (length data_loader) name)
            (fun v _ v' =>
               v' = (stepped (length data_loader) v.1,
                     foldl (batch_update v.1) v.2 data_loader))).
  eapply runs_weaken.
  - eapply runs_bind; [apply runs_with_grad, runs_call|]. intros a _.
    eapply runs_bind.
    + apply runs_for_each. intros data Hin. apply runs_loop_body.
      rewrite Forall_forall in Hdata. by apply Hdata.
    + intros a' _. apply runs_with_grad.
      eapply runs_bind; [|intros o _; apply runs_call].
      instantiate (1 := fun v _ v' => v' = v).
      intros w [Hw1 Hw2]. pose proof Hw2 as (_ & _ & (o & Ho) & _).
      unfold getattr. rewrite Ho. exists (SingleOptim o).
      split; [done|]. split; [by split | done].
  - intros [t g] a v' H. cbv beta in H.
    destruct H as (a1 & v1 & H1 & a2 & v2 & H2 & o & v3 & H3 & H4). subst.
    apply foldl_loop_body.
Qed.

(** X3. With no fault scheduled, [train] on the supervised trainer returns
    normally, and the engine it leaves is the one obtained by folding the
    batches, in the order of the data source, through one optimizer step
    each (clear the gradients, back-propagate the loss of the forward pass
    on the current parameters, step), followed by the scheduler step when
    there is a scheduler. *)
Theorem train_folds_batches (data_loader : list Batch) (w : World) :
  calm w ->
  Forall (fun data => length data = 2) data_loader ->
  res (train SupervisedTrainer_iteration data_loader w) = Ok tt /\
  engine (env (post (train SupervisedTrainer_iteration data_loader w)))
  = scheduler_update (self w)
      (foldl (batch_update (set__is_train true (self w))) (engine (env w))
         data_loader).
Proof.
  intros Hw Hdata.
  assert (H : runs (train SupervisedTrainer_iteration data_loader)
                (fun v _ v' =>
                   v'.2 = scheduler_update v.1
                            (foldl (batch_update (set__is_train true v.1)) v.2
                               data_loader))).
  { unfold train. eapply runs_weaken.
    - eapply runs_bind.
      { apply (runs_update_self (set__is_train true)). intros t.
        apply supervised_ready_set__is_train. }
      intros a1 _.
      eapply runs_bind; [apply (runs_call (fun _ => EvModelTrain))|].
      intros a2 _.
      eapply runs_bind; [by apply runs_with_grad, runs__loop|]. intros a3 _.
      eapply (runs_bind _ _
                (fun v s v' =>
                   v' = v /\ _scheduler v.1 = Some s /\
                   (s = NoScheduler \/ exists x, s = SingleSched x))).
      { intros w' [Hw1 Hw2]. pose proof Hw2 as (_ & _ & _ & Hs).
        unfold getattr.
        destruct Hs as [Hs|[x Hs]]; rewrite Hs; eexists;
          (split; [reflexivity|]); (split; [split; assumption|]);
          (split; [reflexivity|]); (split; [exact Hs | eauto]). }
      intros s (v & v' & _ & _ & Hs).
      eapply (runs_bind _ _
                (fun v _ v' =>
                   v' = (v.1, match s with
                              | SingleSched x => scheduler_step (sched_id x) v.2
                              | _ => v.2
                              end))).
      { destruct Hs as [->|[x ->]].
        - eapply runs_weaken; [apply runs_ret|].
          by intros [t g] a' v'' [_ ->].
        - intros w' [Hw1 Hw2]. exists tt. unfold lift.
          rewrite (bind_res_ok _ _ _ tt); rewrite (call_no_fault _ _ Hw1);
            [|done].
          split; [done|]. split; [split; assumption | done]. }
      intros a5 _.
      apply (runs_update_self (fun t => set__epoch (_epoch t + 1) t)).
      intros t. apply supervised_ready_set__epoch.
    - intros [t g] a v' H. cbv beta in H.
      destruct H as (a1 & v1 & H1 & a2 & v2 & H2 & a3 & v3 & H3 & s & v4
                     & (H4 & Hs & _) & a5 & v5 & H5 & H6).
      subst. cbn [fst snd] in *. unfold scheduler_update.
      assert (Hs' : _scheduler t = Some s) by exact Hs.
      rewrite Hs'. by destruct s. }
  destruct (H w Hw) as ([] & Hres & _ & HQ). by split.
Qed.

(** ** The order of the dispatches *)

(** The fixed entries of the [start_iteration] context (lines 137-140). *)
Definition start_iteration_fixed (t : Trainer) (name : string) : Ctx :=
  dict_literal [(MODEL, VModel (model t));
                (STEP, VInt (_step t));
                (NAME, VStr name);
                (TRAINER, VSelf)].

Definition dispatch_start_iteration (name : string) : M Event World unit :=
  with_grad false
    (lift (fun t =>
       call (EvStartIteration
               (dict_update (start_iteration_fixed t name)
                  (_start_iteration t))))).

Definition dispatch_end_iteration (data : Batch) (name : string)
    (lo : Tensor * Tensor) : M Event World unit :=
  with_grad false
    (lift (fun t =>
       call (EvEndIteration
               (dict_update (end_iteration_fixed t data name lo.1 lo.2)
                  (_end_iteration t))))).

Lemma _iteration_unfold (iteration : Iteration) (data : Batch)
    (name : string) (w : World) :
  _iteration iteration data name w
  = (dispatch_start_iteration name ;;
     r <- lift (fun t => map_out EvEngine (iteration t data)) ;;
     lo <- unpack_pair r ;;
     dispatch_end_iteration data name lo) w.
Proof. reflexivity. Qed.

(** What one dispatch puts out. *)
Lemma dispatch_cases (b : bool) (ev : Trainer -> Event) (w : World) :
  let o := with_grad b (lift (fun t => call (ev t))) w in
  self (post o) = self w /\
  ((res o = Ok tt /\ out o = [ev (self w)]) \/
   (exists x, res o = Raise x /\ (out o = [] \/ out o = [ev (self w)]))).
Proof.
  cbv zeta. rewrite with_grad_res, with_grad_out. unfold with_grad, lift.
  cbn [self env post out res]. split; [done|].
  destruct (call_cases (ev (self w)) (set_grad_enabled b (env w)))
    as [[-> ->]|(x & -> & H)]; [by left|right; eauto].
Qed.

Lemma STEP_not_overwritten : NAME <> STEP /\ TRAINER <> STEP.
Proof.
  pose proof tags_distinct as H. rewrite !NoDup_cons in H.
  destruct H as (_ & Hs & _).
  rewrite !not_elem_of_cons in Hs. split; intros E; symmetry in E; tauto.
Qed.

Lemma start_iteration_fixed_STEP (t : Trainer) (name : string) :
  start_iteration_fixed t name !! STEP = Some (VInt (_step t)).
Proof.
  destruct STEP_not_overwritten as [H1 H2].
  unfold start_iteration_fixed, dict_literal. simpl.
  do 2 (rewrite lookup_insert_ne by assumption). apply lookup_insert_eq.
Qed.

Lemma end_iteration_fixed_STEP (t : Trainer) (data : Batch) (name : string)
    (loss output : Tensor) :
  end_iteration_fixed t data name loss output !! STEP = Some (VInt (_step t)).
Proof.
  destruct STEP_not_overwritten as [H1 H2].
  unfold end_iteration_fixed, dict_literal. simpl.
  do 2 (rewrite lookup_insert_ne by assumption). apply lookup_insert_eq.
Qed.

(** The events of one pass through [_iteration], by how far it got. *)
Inductive iteration_trace (t : Trainer) (data : Batch) (name : string)
    : list Event -> Prop :=
| trace_preempted : iteration_trace t data name []
| trace_started (es : list EngineEvent) :
    iteration_trace t data name
      (EvStartIteration
         (dict_update (start_iteration_fixed t name) (_start_iteration t))
       :: map EvEngine es)
| trace_finished (es : list EngineEvent) (loss output : Tensor) :
    iteration_trace t data name
      (EvStartIteration
         (dict_update (start_iteration_fixed t name) (_start_iteration t))
       :: map EvEngine es
       ++ [EvEndIteration
             (dict_update (end_iteration_fixed t data name loss output)
                (_end_iteration t))]).

Definition is_start_iteration (ev : Event) : bool :=
  match ev with EvStartIteration _ => true | _ => false end.

Definition is_end_iteration (ev : Event) : bool :=
  match ev with EvEndIteration _ => true | _ => false end.

Lemma count_map_EvEngine (p : Event -> bool) (es : list EngineEvent) :
  (forall e, p (EvEngine e) = false) -> count p (map EvEngine es) = 0.
Proof.
  intros Hp. induction es as [|e es IH]; simpl; [done|]. by rewrite Hp, IH.
Qed.

Lemma _iteration_trace (iteration : Iteration) (data : Batch) (name : string)
    (w : World) :
  let o := _iteration iteration data name w in
  iteration_trace (self w) data name (out o) /\
  (res o = Ok tt ->
   exists es loss output,
     out o
     = EvStartIteration
         (dict_update (start_iteration_fixed (self w) name)
            (_start_iteration (self w)))
       :: map EvEngine es
       ++ [EvEndIteration
             (dict_update
                (end_iteration_fixed (self w) data name loss output)
                (_end_iteration (self w)))]).
Proof.
  cbv zeta. rewrite _iteration_unfold.
  destruct (dispatch_cases false
              (fun t => EvStartIteration
                          (dict_update (start_iteration_fixed t name)
                             (_start_iteration t))) w)
    as [Hself Hstart].
  cbv zeta in Hself, Hstart.
  fold (dispatch_start_iteration name) in Hself, Hstart.
  bind_cases H1.
  2:{ split; [|done].
      destruct Hstart as [[? _]|(x & _ & [->| ->])]; [congruence| |].
      - constructor.
      - apply (trace_started _ _ _ []). }
  destruct Hstart as [[_ ->]|(x & ? & _)]; [|congruence].
  bind_cases H2.
  2:{ split; [|done]. rewrite lift_map_out_out. apply trace_started. }
  rewrite lift_map_out_out, Hself.
  set (es := out (iteration (self w) data
                    (env (post (dispatch_start_iteration name w))))).
  destruct a0 as [|[|loss [|output [|? ?]]]]; cbn [unpack_pair];
    try (split; [|done]; unfold bind, raise; cbn [res out];
         rewrite app_nil_r; apply trace_started).
  rewrite bind_ret.
  match goal with
  | |- context [dispatch_end_iteration data name _ ?w'] => set (w2 := w')
  end.
  assert (Hself2 : self w2 = self w) by exact Hself.
  destruct (dispatch_cases false
              (fun t => EvEndIteration
                          (dict_update
                             (end_iteration_fixed t data name loss output)
                             (_end_iteration t))) w2)
    as [_ Hend].
  cbv zeta in Hend. rewrite Hself2 in Hend.
  unfold dispatch_end_iteration. cbn [fst snd].
  destruct Hend as [[Hr ->]|(x & Hr & [->| ->])].
  - split; [apply trace_finished|]. intros _. eauto.
  - split; [|congruence]. rewrite app_nil_r. apply trace_started.
  - split; [apply trace_finished|congruence].
Qed.

(** X4. In every pass through [_iteration], however it ends, the
    [start_iteration] dispatch comes first, then the calls of the per-batch
    operation, then the [end_iteration] dispatch; a pass that returns has
    made both dispatches.  Both contexts report, among their fixed entries,
    the step counter as it is before the increment of the loop. *)
Theorem iteration_dispatches_in_order (iteration : Iteration) (data : Batch)
    (name : string) (w : World) :
  let o := _iteration iteration data name w in
  iteration_trace (self w) data name (out o) /\
  (res o = Ok tt ->
   count is_start_iteration (out o) = 1 /\
   count is_end_iteration (out o) = 1) /\
  start_iteration_fixed (self w) name !! STEP = Some (VInt (_step (self w))) /\
  (forall loss output,
     end_iteration_fixed (self w) data name loss output !! STEP
     = Some (VInt (_step (self w)))).
Proof.
  cbv zeta. destruct (_iteration_trace iteration data name w) as [Ht Hok].
  cbv zeta in Ht, Hok. split; [done|]. split.
  - intros H. destruct (Hok H) as (es & loss & output & ->).
    cbn [count is_start_iteration is_end_iteration].
    rewrite !count_app, !count_map_EvEngine by done. by simpl.
  - split; [apply start_iteration_fixed_STEP|].
    intros loss output. apply end_iteration_fixed_STEP.
Qed.

(** ** [run] as a composition of [train] and [test] *)

Lemma rounds_self (iteration : Iteration) (train_data test_data : list Batch)
    (l : list Z) (w : World) :
  let o := for_each l
             (fun _ => train iteration train_data ;;
                       test iteration test_data TEST) w in
  res o = Ok tt ->
  _step (self (post o))
  = (_step (self w) + Z.of_nat (length l) * Z.of_nat (length train_data))%Z /\
  _epoch (self (post o)) = (_epoch (self w) + Z.of_nat (length l))%Z /\
  (l <> [] -> _is_train (self (post o)) = false).
Proof.
  cbv zeta. revert w. induction l as [|ep l IH]; intros w H.
  - simpl. split; [lia|]. split; [lia|done].
  - cbn [for_each] in H |- *.
    apply bind_ok_post in H as ([] & Hbody & Hrest & -> & _).
    pose proof Hbody as Hb.
    apply bind_ok_post in Hb as ([] & Htrain & Htest & Hpost & _).
    destruct (IH _ Hrest) as (Hs & He & Hm).
    split; [|split].
    + rewrite Hs, Hpost, test_self. cbn [_step set__is_train].
      rewrite (train_self _ _ _ Htrain).
      cbn [_step set__epoch set__step length]. rewrite Nat2Z.inj_succ. nia.
    + rewrite He, Hpost, test_self. cbn [_epoch set__is_train].
      rewrite (train_self _ _ _ Htrain).
      cbn [_epoch set__epoch length]. rewrite Nat2Z.inj_succ. lia.
    + intros _. destruct l as [|ep' l]; [|by apply Hm].
      cbn [for_each]. unfold ret. cbn [post]. by rewrite Hpost, test_self.
Qed.

Lemma run_self (iteration : Iteration) (epochs : Z)
    (train_data test_data : list Batch) (w : World) :
  self (post (run iteration epochs train_data test_data w))
  = self (post (epochs_loop iteration epochs train_data test_data w)).
Proof.
  unfold run, try_finally, try_except, emit. cbn [post].
  assert (H : self (post ((epochs_loop iteration epochs train_data test_data
                            ;; _exit) w))
              = self (post (epochs_loop iteration epochs train_data
                              test_data w))).
  { bind_cases Hr; [|done]. apply keeps_self__exit. }
  destruct (res ((epochs_loop iteration epochs train_data test_data ;; _exit)
                   w)) as [a|e]; [done|].
  by destruct (is_KeyboardInterrupt e).
Qed.

(** X5. When the epoch loop of [run] completes, [run] has advanced the
    step counter by the number of epochs times the number of training
    batches and the epoch counter by the number of epochs, whatever the
    end-of-run dispatch does; a number of epochs that is zero or negative
    counts as none.  After at least one epoch the trainer is left in
    evaluation mode. *)
Theorem run_advances_counters (iteration : Iteration) (epochs : Z)
    (train_data test_data : list Batch) (w : World) :
  res (epochs_loop iteration epochs train_data test_data w) = Ok tt ->
  let t' := self (post (run iteration epochs train_data test_data w)) in
  _step t'
  = (_step (self w) + Z.max 0 epochs * Z.of_nat (length train_data))%Z /\
  _epoch t' = (_epoch (self w) + Z.max 0 epochs)%Z /\
  ((0 < epochs)%Z -> _is_train t' = false) /\
  ((epochs <= 0)%Z -> t' = self w).
Proof.
  intros H. cbv zeta. rewrite run_self. unfold epochs_loop in *.
  destruct (rounds_self iteration train_data test_data (seqZ 1 epochs) w H)
    as (Hs & He & Hm).
  cbv zeta in Hs, He, Hm. rewrite length_seqZ in Hs, He.
  split; [rewrite Hs; f_equal; lia|]. split; [rewrite He; lia|]. split.
  - intros Hpos. apply Hm. intros Hnil.
    apply (f_equal length) in Hnil. rewrite length_seqZ in Hnil.
    simpl in Hnil. lia.
  - intros Hneg. rewrite seqZ_nil by lia. done.
Qed.

(** ** A trainer without optimizer *)

(** The events of the batch loop between the two dispatches of an epoch. *)
Definition iteration_event (ev : Event) : Prop :=
  match ev with
  | EvStartIteration _ | EvEndIteration _ | EvEngine _ => True
  | _ => False
  end.

Lemma respects_loop_body (iteration : Iteration) (name : string)
    (data : Batch) :
  respects (fun _ => True) iteration_event (loop_body iteration name data).
Proof.
  unfold loop_body, _iteration, unpack_pair.
  repeat first [ apply respects_update_self; auto | respects_step ];
    simpl; auto.
Qed.

Lemma for_each_iteration_events (iteration : Iteration) (name : string)
    (l : list Batch) (w : World) :
  Forall iteration_event (out (for_each l (loop_body iteration name) w)).
Proof.
  apply (respects_for_each (fun _ => True) iteration_event).
  - intros data. apply respects_loop_body.
  - done.
Qed.

Lemma count_iteration_events (l : list Event) :
  Forall iteration_event l -> count is_end_epoch l = 0.
Proof.
  intros H. apply count_none. eapply Forall_impl; [exact H|].
  by intros [].
Qed.

Lemma dispatch_end_epoch_unset (n : nat) (name : string) (w : World) :
  optimizer (self w) = None ->
  res (dispatch_end_epoch n name w) = Raise AttributeError /\
  out (dispatch_end_epoch n name w) = [].
Proof.
  intros H. unfold dispatch_end_epoch.
  rewrite with_grad_res, with_grad_out. unfold bind, getattr.
  cbn [self]. by rewrite H.
Qed.

Lemma optimizer_stepped (k : nat) (t : Trainer) :
  optimizer (stepped k t) = optimizer t.
Proof. unfold stepped. by destruct (_is_train t). Qed.

Lemma _loop_unset (iteration : Iteration) (data_loader : list Batch)
    (name : string) (w : World) :
  optimizer (self w) = None ->
  (exists e, res (_loop iteration data_loader name w) = Raise e) /\
  count is_end_epoch (out (_loop iteration data_loader name w)) = 0.
Proof.
  intros Ho. rewrite _loop_unfold.
  destruct (dispatch_cases false
              (fun t => EvStartEpoch
                          (dict_update
                             (dict_literal [(MODEL, VModel (model t));
                                            (NAME, VStr name);
                                            (TRAINER, VSelf)])
                             (_start_epoch t))) w) as [Hself Hstart].
  cbv zeta in Hself, Hstart. fold (dispatch_start_epoch name) in Hself, Hstart.
  assert (Hc1 : count is_end_epoch (out (dispatch_start_epoch name w)) = 0).
  { destruct Hstart as [[_ ->]|(x & _ & [->| ->])]; done. }
  bind_cases H1; [|split; [eauto|done]].
  pose proof (for_each_iteration_events iteration name data_loader
                (post (dispatch_start_epoch name w))) as Hev.
  apply count_iteration_events in Hev.
  destruct (for_each_self iteration name data_loader
              (post (dispatch_start_epoch name w))) as (k & _ & Hk & _).
  bind_cases H2.
  - destruct (dispatch_end_epoch_unset (length data_loader) name
                (post (for_each data_loader (loop_body iteration name)
                         (post (dispatch_start_epoch name w)))))
      as [-> ->].
    { by rewrite Hk, optimizer_stepped, Hself. }
    split; [eauto|]. rewrite !count_app, Hc1, Hev. done.
  - split; [eauto|]. rewrite count_app, Hc1, Hev. done.
Qed.

(** X6. A trainer whose [optimizer] attribute was never assigned cannot
    finish an epoch: [train] and [test] never return normally and never
    dispatch [end_epoch], [train] does not advance the epoch counter, and
    the end-of-run dispatch raises [AttributeError] without calling the
    dispatcher. *)
Theorem unset_optimizer_cannot_finish_an_epoch (iteration : Iteration)
    (data_loader : list Batch) (name : string) (w : World) :
  optimizer (self w) = None ->
  ((exists e, res (train iteration data_loader w) = Raise e) /\
   count is_end_epoch (out (train iteration data_loader w)) = 0 /\
   _epoch (self (post (train iteration data_loader w))) = _epoch (self w)) /\
  ((exists e, res (test iteration data_loader name w) = Raise e) /\
   count is_end_epoch (out (test iteration data_loader name w)) = 0) /\
  (res (_exit w) = Raise AttributeError /\ out (_exit w) = []).
Proof.
  intros Ho. split; [|split].
  - unfold train. rewrite bind_update_self.
    set (w1 := {| self := set__is_train true (self w); env := env w |}).
    assert (Hcall : count is_end_epoch
                      (out (lift (fun _ => call EvModelTrain) w1)) = 0).
    { unfold lift. cbn [out].
      destruct (call_cases (E := Event) EvModelTrain (env w1))
        as [[_ ->]|(x & _ & [->| ->])]; done. }
    bind_cases H1; [|split; [eauto|by split]].
    set (w2 := post (lift (fun _ => call EvModelTrain) w1)).
    destruct (_loop_unset iteration data_loader TRAIN
                {| self := self w2; env := set_grad_enabled true (env w2) |})
      as [[e He] Hc]; [exact Ho|].
    destruct (_loop_self iteration data_loader TRAIN
                {| self := self w2; env := set_grad_enabled true (env w2) |})
      as (k & _ & Hk & _).
    rewrite (bind_res_raise _ _ _ e) by (by rewrite with_grad_res).
    cbn [res post out]. rewrite with_grad_out, with_grad_self, Hk.
    split; [eauto|]. split; [by rewrite count_app, Hcall, Hc|].
    unfold stepped. cbn [self]. by destruct (_is_train (self w2)).
  - unfold test. rewrite bind_update_self.
    set (w1 := {| self := set__is_train false (self w); env := env w |}).
    assert (Hcall : count is_end_epoch
                      (out (lift (fun _ => call EvModelEval) w1)) = 0).
    { unfold lift. cbn [out].
      destruct (call_cases (E := Event) EvModelEval (env w1))
        as [[_ ->]|(x & _ & [->| ->])]; done. }
    bind_cases H1; [|split; [eauto|done]].
    set (w2 := post (lift (fun _ => call EvModelEval) w1)).
    destruct (_loop_unset iteration data_loader name
                {| self := self w2; env := set_grad_enabled false (env w2) |})
      as [[e He] Hc]; [exact Ho|].
    rewrite with_grad_res, with_grad_out, He.
    split; [eauto|]. by rewrite count_app, Hcall, Hc.
  - unfold _exit. rewrite with_grad_res, with_grad_out.
    unfold bind, getattr. cbn [self]. by rewrite Ho.
Qed.

(** ** The order of the dispatches of an epoch *)

(** The fixed entries of the [start_epoch] and [end_epoch] contexts (lines
    157-159 and 171-176). *)
Definition start_epoch_fixed (t : Trainer) (name : string) : Ctx :=
  dict_literal [(MODEL, VModel (model t));
                (NAME, VStr name);
                (TRAINER, VSelf)].

Definition end_epoch_fixed (t : Trainer) (o : OptimizerAttr) (name : string)
    (n : nat) : Ctx :=
  dict_literal [(MODEL, VModel (model t));
                (OPTIMIZER, VOptimizer o);
                (EPOCH, VInt (_epoch t));
                (NAME, VStr name);
                (ITER_PER_EPOCH, VInt (Z.of_nat n));
                (TRAINER, VSelf)].

Lemma EPOCH_not_overwritten :
  NAME <> EPOCH /\ ITER_PER_EPOCH <> EPOCH /\ TRAINER <> EPOCH /\
  TRAINER <> ITER_PER_EPOCH.
Proof.
  pose proof tags_distinct as H. rewrite !NoDup_cons in H.
  destruct H as (_ & _ & Hn & Ht & _ & _ & _ & _ & He & _).
  repeat rewrite not_elem_of_cons in Hn.
  repeat rewrite not_elem_of_cons in Ht.
  repeat rewrite not_elem_of_cons in He.
  repeat split; intros E; (tauto || (symmetry in E; tauto)).
Qed.

Lemma end_epoch_fixed_lookup (t : Trainer) (o : OptimizerAttr)
    (name : string) (n : nat) :
  end_epoch_fixed t o name n !! ITER_PER_EPOCH = Some (VInt (Z.of_nat n)) /\
  end_epoch_fixed t o name n !! EPOCH = Some (VInt (_epoch t)).
Proof.
  destruct EPOCH_not_overwritten as (H1 & H2 & H3 & H4).
  unfold end_epoch_fixed, dict_literal. simpl. split.
  - rewrite lookup_insert_ne by assumption. apply lookup_insert_eq.
  - do 3 (rewrite lookup_insert_ne by assumption). apply lookup_insert_eq.
Qed.

Lemma end_epoch_fixed_stepped (k : nat) (t : Trainer) :
  end_epoch_fixed (stepped k t) = end_epoch_fixed t /\
  _end_epoch (stepped k t) = _end_epoch t.
Proof. unfold stepped. by destruct (_is_train t). Qed.

Lemma loop_body_counts (iteration : Iteration) (name : string) (data : Batch)
    (w : World) :
  res (loop_body iteration name data w) = Ok tt ->
  count is_start_iteration (out (loop_body iteration name data w)) = 1 /\
  count is_end_iteration (out (loop_body iteration name data w)) = 1.
Proof.
  unfold loop_body. intros H.
  apply bind_ok_post in H as ([] & Hit & Hrest & _ & ->).
  destruct (_iteration_trace iteration data name w) as [_ Hok].
  cbv zeta in Hok. destruct (Hok Hit) as (es & loss & output & ->).
  assert (Hnil : forall w', out ((w0 <- get ;;
                                  if _is_train (self w0)
                                  then update_self
                                         (fun t => set__step (_step t + 1) t)
                                  else ret tt) w') = []).
  { intros w'. rewrite bind_get. by destruct (_is_train (self w')). }
  rewrite Hnil, app_nil_r.
  cbn [count is_start_iteration is_end_iteration].
  rewrite !count_app, !count_map_EvEngine by done. by simpl.
Qed.

Lemma for_each_counts (iteration : Iteration) (name : string)
    (l : list Batch) (w : World) :
  res (for_each l (loop_body iteration name) w) = Ok tt ->
  count is_start_iteration (out (for_each l (loop_body iteration name) w))
  = length l /\
  count is_end_iteration (out (for_each l (loop_body iteration name) w))
  = length l.
Proof.
  revert w. induction l as [|data l IH]; intros w H; [done|].
  cbn [for_each] in H |- *.
  apply bind_ok_post in H as ([] & Hbody & Hrest & _ & ->).
  destruct (loop_body_counts _ _ _ _ Hbody) as [H1 H2].
  destruct (IH _ Hrest) as [H3 H4].
  rewrite !count_app, H1, H2, H3, H4. done.
Qed.

Lemma dispatch_end_epoch_cases (n : nat) (name : string) (w : World) :
  let o := dispatch_end_epoch n name w in
  match optimizer (self w) with
  | None => res o = Raise AttributeError /\ out o = []
  | Some opt =>
      let ev := EvEndEpoch
                  (dict_update (end_epoch_fixed (self w) opt name n)
                     (_end_epoch (self w))) in
      (res o = Ok tt /\ out o = [ev]) \/
      (exists x, res o = Raise x /\ (out o = [] \/ out o = [ev]))
  end.
Proof.
  cbv zeta. destruct (optimizer (self w)) as [opt|] eqn:Ho.
  2:{ by apply dispatch_end_epoch_unset. }
  unfold dispatch_end_epoch. rewrite with_grad_res, with_grad_out.
  unfold bind, getattr, lift. cbn [self env]. rewrite Ho.
  cbn [ret res post out self env app].
  match goal with
  | |- context [call ?ev ?e] =>
      destruct (call_cases ev e) as [[-> ->]|(x & -> & [->| ->])]
  end; [by left|right; eauto|right; eauto].
Qed.

Lemma no_end_epoch_among (l : list Event) (c : Ctx) :
  Forall iteration_event l -> EvEndEpoch c ∈ l -> False.
Proof.
  intros H Hin. rewrite Forall_forall in H. by specialize (H _ Hin).
Qed.

(** The events of a pass through [_loop] that reached its end. *)
Lemma _loop_trace (iteration : Iteration)
    (data_loader : list Batch) (name : string) (w : World) :
  let o := _loop iteration data_loader name w in
  let n := length data_loader in
  res o = Ok tt \/ (exists c, EvEndEpoch c ∈ out o) ->
  exists opt body,
    optimizer (self w) = Some opt /\
    out o
    = EvStartEpoch
        (dict_update (start_epoch_fixed (self w) name) (_start_epoch (self w)))
      :: body
      ++ [EvEndEpoch
            (dict_update (end_epoch_fixed (self w) opt name n)
               (_end_epoch (self w)))] /\
    Forall iteration_event body /\
    count is_start_iteration body = n /\
    count is_end_iteration body = n /\
    end_epoch_fixed (self w) opt name n !! ITER_PER_EPOCH
    = Some (VInt (Z.of_nat n)) /\
    end_epoch_fixed (self w) opt name n !! EPOCH
    = Some (VInt (_epoch (self w))).
Proof.
  cbv zeta. rewrite _loop_unfold.
  destruct (dispatch_cases false
              (fun t => EvStartEpoch
                          (dict_update (start_epoch_fixed t name)
                             (_start_epoch t))) w) as [Hself Hstart].
  cbv zeta in Hself, Hstart.
  change (with_grad false _) with (dispatch_start_epoch name)
    in Hself, Hstart.
  bind_cases H1.
  2:{ intros [H|[c Hc]]; [congruence|].
      destruct Hstart as [[? _]|(x & _ & [E|E])]; [congruence| |];
        rewrite E in Hc.
      - by apply not_elem_of_nil in Hc.
      - apply list_elem_of_singleton in Hc. discriminate Hc. }
  destruct Hstart as [[_ Hout1]|(x & ? & _)]; [|congruence].
  rewrite Hout1.
  set (w1 := post (dispatch_start_epoch name w)) in *.
  pose proof (for_each_iteration_events iteration name data_loader w1) as Hev.
  destruct (for_each_self iteration name data_loader w1)
    as (k & _ & Hk & Hkn).
  bind_cases H2.
  2:{ intros [H|[c Hc]]; [congruence|]. exfalso.
      apply elem_of_cons in Hc as [Hc|Hc]; [done|].
      by apply (no_end_epoch_among _ c Hev). }
  destruct a0. specialize (Hkn eq_refl). subst k.
  destruct (for_each_counts _ _ _ _ H2) as [Hc1 Hc2].
  set (w2 := post (for_each data_loader (loop_body iteration name) w1)) in *.
  pose proof (dispatch_end_epoch_cases (length data_loader) name w2) as Hend.
  cbv zeta in Hend. rewrite Hk, Hself in Hend.
  rewrite optimizer_stepped in Hend.
  destruct (end_epoch_fixed_stepped (length data_loader) (self w))
    as [Hfix Hreg].
  rewrite Hfix, Hreg in Hend.
  destruct (optimizer (self w)) as [opt|].
  2:{ destruct Hend as [Hr Ho]. rewrite Hr, Ho, app_nil_r.
      intros [H|[c Hc]]; [congruence|]. exfalso.
      apply elem_of_cons in Hc as [Hc|Hc]; [done|].
      by apply (no_end_epoch_among _ c Hev). }
  intros H. exists opt, (out (for_each data_loader (loop_body iteration name) w1)).
  split; [done|].
  assert (Hout : out (dispatch_end_epoch (length data_loader) name w2)
                 = [EvEndEpoch
                      (dict_update
                         (end_epoch_fixed (self w) opt name
                            (length data_loader))
                         (_end_epoch (self w)))]).
  { destruct Hend as [[_ Ho]|(x & Hr & [Ho|Ho])]; [done| |done].
    exfalso. rewrite Hr, Ho, app_nil_r in H.
    destruct H as [H|[c Hc]]; [congruence|].
    apply elem_of_cons in Hc as [Hc|Hc]; [done|].
    by apply (no_end_epoch_among _ c Hev). }
  rewrite Hout. split; [done|]. split; [done|]. split; [done|].
  split; [done|]. apply end_epoch_fixed_lookup.
Qed.

(** X7. When [_loop] returns, or has dispatched [end_epoch] at all, its
    events are the [start_epoch] dispatch, the events of the batches, and
    the [end_epoch] dispatch, in that order, and every batch of the data
    source has had its [start_iteration] and [end_iteration] dispatch: the
    end of the epoch is dispatched only after every batch has completed.
    Among its fixed entries the [end_epoch] context carries the number of
    batches under [ITER_PER_EPOCH] and the epoch counter under [EPOCH]. *)
Theorem epoch_dispatches_in_order (iteration : Iteration)
    (data_loader : list Batch) (name : string) (w : World) :
  let o := _loop iteration data_loader name w in
  let n := length data_loader in
  res o = Ok tt \/ (exists c, EvEndEpoch c ∈ out o) ->
  exists opt body,
    optimizer (self w) = Some opt /\
    out o
    = EvStartEpoch
        (dict_update (start_epoch_fixed (self w) name) (_start_epoch (self w)))
      :: body
      ++ [EvEndEpoch
            (dict_update (end_epoch_fixed (self w) opt name n)
               (_end_epoch (self w)))] /\
    Forall iteration_event body /\
    count is_start_iteration body = n /\
    count is_end_iteration body = n /\
    end_epoch_fixed (self w) opt name n !! ITER_PER_EPOCH
    = Some (VInt (Z.of_nat n)) /\
    end_epoch_fixed (self w) opt name n !! EPOCH
    = Some (VInt (_epoch (self w))).
Proof. apply _loop_trace. Qed.

(** ** Construction that succeeds *)

Lemma out_bind {E S A B} (m : M E S A) (k : A -> M E S B) (s : S) :
  out (bind m k s)
  = out (m s) ++ match res (m s) with
                 | Ok a => out (k a (post (m s)))
                 | Raise _ => []
                 end.
Proof. unfold bind. destruct (res (m s)); simpl; [done|]. by rewrite app_nil_r. Qed.

Lemma set_kwargs_out (class_names : list string) (opt_set sched_set : bool)
    (kwargs : list (string * Value)) (attrs : Ctx) :
  out (set_kwargs class_names opt_set sched_set kwargs attrs tt) = [].
Proof.
  revert attrs. induction kwargs as [|[k v] kwargs IH]; intros attrs; [done|].
  cbn [set_kwargs]. by destruct (hasattr class_names opt_set sched_set attrs k).
Qed.

(** The loop of lines 100-103 when it completes: no key was an attribute
    already, no key occurs twice, and every entry is stored. *)
Lemma set_kwargs_inv (class_names : list string) (opt_set sched_set : bool)
    (kwargs : list (string * Value)) (attrs attrs' : Ctx) :
  res (set_kwargs class_names opt_set sched_set kwargs attrs tt) = Ok attrs' ->
  (forall k, k ∈ kwargs.*1 ->
     (k ∉ TrainerBase_names ++ class_names) /\
     (k ∉ assigned_names opt_set sched_set) /\ attrs !! k = None) /\
  (forall k v, (k, v) ∈ kwargs -> attrs' !! k = Some v) /\
  (forall k, k ∉ kwargs.*1 -> attrs' !! k = attrs !! k).
Proof.
  revert attrs. induction kwargs as [|[k v] kwargs IH]; intros attrs.
  - intros [= <-]. split; [|split].
    + intros k Hk. by apply not_elem_of_nil in Hk.
    + intros k v Hk. by apply not_elem_of_nil in Hk.
    + done.
  - cbn [set_kwargs].
    destruct (hasattr class_names opt_set sched_set attrs k) eqn:Hh;
      [discriminate|].
    intros H. destruct (IH _ H) as (IH1 & IH2 & IH3).
    unfold hasattr in Hh.
    apply orb_false_elim in Hh as [Hh H3].
    apply orb_false_elim in Hh as [H1 H2].
    apply bool_decide_eq_false in H1, H2, H3.
    assert (Hnone : attrs !! k = None).
    { destruct (attrs !! k) eqn:E; [|done]. exfalso. apply H3. eauto. }
    assert (Hfresh : k ∉ kwargs.*1).
    { intros Hin. destruct (IH1 _ Hin) as (_ & _ & Hk).
      by rewrite lookup_insert_eq in Hk. }
    split; [|split].
    + intros k' Hk'. cbn in Hk'. apply elem_of_cons in Hk' as [->|Hk'].
      * done.
      * destruct (IH1 _ Hk') as (? & ? & Hk). split; [done|]. split; [done|].
        destruct (decide (k = k')) as [->|Hne]; [done|].
        by rewrite lookup_insert_ne in Hk.
    + intros k' v' Hk'. apply elem_of_cons in Hk' as [[= -> ->]|Hk'].
      * rewrite (IH3 _ Hfresh). by rewrite lookup_insert_eq.
      * by apply IH2.
    + intros k' Hk'. cbn in Hk'. apply not_elem_of_cons in Hk' as [Hne Hk'].
      rewrite (IH3 _ Hk'). by rewrite lookup_insert_ne.
Qed.

(** What a construction that returns has done with the keyword arguments
    and the registries. *)
Lemma TrainerBase_init_kwargs (a : InitArgs) (t : Trainer) :
  res (TrainerBase_init a tt) = Ok t ->
  (exists attrs,
     res (set_kwargs (arg_class_names a)
            (optimizer_assigned (arg_optimizer a))
            (scheduler_assigned (arg_scheduler a)) (arg_kwargs a) ∅ tt)
     = Ok attrs /\
     kwattrs t = filter (fun kv => kv.1 ∉ registry_names) attrs) /\
  _start_iteration t = ∅ /\ _end_iteration t = ∅ /\ _start_epoch t = ∅ /\
  _end_epoch t = ∅ /\ _end_all t = ∅.
Proof.
  unfold TrainerBase_init.
  destruct (arg_model a), (arg_optimizer a), (arg_scheduler a);
    destruct cuda_is_available, (arg_use_cudnn_bnenchmark a);
    rewrite ?res_bind; cbn; rewrite ?res_bind; cbn; try discriminate;
    (destruct (res (set_kwargs _ _ _ _ _ _)) as [attrs|]; [|discriminate]);
    intros [= <-]; cbn; (split; [by exists attrs | done]).
Qed.

(** X8. The keyword arguments of a construction that returns have all been
    stored: none was an attribute of the object already, and each is found
    under its name with its value, except under the name of one of the five
    registries: such an argument is accepted (the registries are assigned
    after the loop of lines 100-103) and then replaced by the empty
    registry.  No other attribute is stored, and the five registries are
    empty. *)
Theorem keyword_arguments_are_stored (a : InitArgs) (t : Trainer) :
  res (TrainerBase_init a tt) = Ok t ->
  (forall k v, (k, v) ∈ arg_kwargs a ->
     ~ existing_attribute a k /\
     kwattrs t !! k
     = if bool_decide (k ∈ registry_names) then None else Some v) /\
  (forall k, k ∉ (arg_kwargs a).*1 -> kwattrs t !! k = None) /\
  _start_iteration t = ∅ /\ _end_iteration t = ∅ /\ _start_epoch t = ∅ /\
  _end_epoch t = ∅ /\ _end_all t = ∅.
Proof.
  intros H.
  destruct (TrainerBase_init_kwargs a t H) as ((attrs & Hset & Hkw) & Hreg).
  apply set_kwargs_inv in Hset as (H1 & H2 & H3).
  split; [|split; [|exact Hreg]].
  - intros k v Hin. split.
    + assert (Hk : k ∈ (arg_kwargs a).*1).
      { apply list_elem_of_fmap. by exists (k, v). }
      destruct (H1 _ Hk) as (Hc & Ha & _). unfold existing_attribute. tauto.
    + rewrite Hkw. case_bool_decide as Hr.
      * apply map_lookup_filter_None. right. intros x _ Hx. by apply Hx.
      * apply map_lookup_filter_Some. split; [by apply H2 | exact Hr].
  - intros k Hk. rewrite Hkw. apply map_lookup_filter_None. left.
    rewrite (H3 _ Hk). apply lookup_empty.
Qed.

(** X9. A supervised trainer built from one module, one [Optimizer], a
    callable loss, no scheduler or one [Scheduler], and keyword arguments
    that can be stored: the constructor returns, having moved the model to
    the device (on cuda only, after setting the cudnn flag when asked),
    bound the optimizer to the model and then the scheduler to that
    optimizer, in this order; the counters start at zero and the trainer is
    in training mode.  The trainer is ready to train: with no fault
    scheduled, [train] on batches that are pairs returns normally, leaving
    the step counter at the number of batches and the epoch counter at 1. *)
Theorem constructed_trainer_trains (a : InitArgs) (m : ModuleId) (o : OptimId)
    (f : LossId) :
  arg_model a = ArgModule m ->
  arg_optimizer a = ArgOptimizer o ->
  arg_loss_f a = LossCallable f ->
  (arg_scheduler a = ArgSchedulerNone \/
   exists s, arg_scheduler a = ArgScheduler s) ->
  kwargs_fresh a ->
  let opt := SingleOptim {| optim_id := o; optim_model := SingleModel m |} in
  exists t,
    res (new SupervisedTrainer a tt) = Ok t /\
    out (new SupervisedTrainer a tt)
    = (if cuda_is_available
       then (if arg_use_cudnn_bnenchmark a then [EvCudnnBenchmark] else [])
            ++ [EvModelTo "cuda"]
       else [])
      ++ EvSetModel o (SingleModel m)
      :: match arg_scheduler a with
         | ArgScheduler s => [EvSetOptimizer s opt]
         | _ => []
         end /\
    model t = SingleModel m /\
    optimizer t = Some opt /\
    _scheduler t
    = Some match arg_scheduler a with
           | ArgScheduler s =>
               SingleSched {| sched_id := s; sched_optimizer := opt |}
           | _ => NoScheduler
           end /\
    _step t = 0%Z /\ _epoch t = 0%Z /\ _is_train t = true /\
    forall (g : Engine) (b : bool) (data_loader : list Batch),
      Forall (fun data => length data = 2) data_loader ->
      let w := {| self := t;
                  env := {| engine := g; grad_enabled := b; fault := None |} |} in
      res (train SupervisedTrainer_iteration data_loader w) = Ok tt /\
      _step (self (post (train SupervisedTrainer_iteration data_loader w)))
      = Z.of_nat (length data_loader) /\
      _epoch (self (post (train SupervisedTrainer_iteration data_loader w)))
      = 1%Z.
Proof.
  intros Hm Ho Hf Hs Hfresh opt.
  destruct (kwargs_fresh_ok a Hfresh) as [attrs Hattrs].
  rewrite Ho in Hattrs. cbn [optimizer_assigned] in Hattrs.
  assert (Hsa : scheduler_assigned (arg_scheduler a) = true).
  { by destruct Hs as [->|[s ->]]. }
  rewrite Hsa in Hattrs.
  pose proof (set_kwargs_out (arg_class_names a) true true (arg_kwargs a) ∅)
    as Hout.
  destruct (set_kwargs (arg_class_names a) true true (arg_kwargs a) ∅ tt)
    as [r [] oo] eqn:E.
  cbn [res out] in Hattrs, Hout. subst r oo.
  unfold new, SupervisedTrainer_init, TrainerBase_init.
  cbn [abstract_methods]. rewrite Hm, Ho, Hf. cbn [is_model_dict].
  assert (Htrain : forall t : Trainer,
            supervised_ready t -> _step t = 0%Z -> _epoch t = 0%Z ->
            forall (g : Engine) (b : bool) (data_loader : list Batch),
              Forall (fun data => length data = 2) data_loader ->
              let w := {| self := t;
                          env := {| engine := g; grad_enabled := b;
                                    fault := None |} |} in
              res (train SupervisedTrainer_iteration data_loader w) = Ok tt /\
              _step (self (post (train SupervisedTrainer_iteration
                                   data_loader w)))
              = Z.of_nat (length data_loader) /\
              _epoch (self (post (train SupervisedTrainer_iteration
                                    data_loader w))) = 1%Z).
  { intros t Hready Hstep Hepoch g b data_loader Hdata w.
    assert (Hw : calm w) by (by split).
    destruct (completes_train data_loader Hdata w Hw) as ([] & Hres & _).
    split; [exact Hres|]. rewrite (train_self _ _ _ Hres).
    cbn [_step _epoch set__epoch set__step set__is_train self w].
    rewrite Hstep, Hepoch. split; lia. }
  destruct Hs as [Hs|[s Hs]]; rewrite Hs;
    destruct cuda_is_available, (arg_use_cudnn_bnenchmark a); cbn -[train];
    unfold bind; rewrite E; cbn -[train];
    (eexists; split; [reflexivity|]; split; [reflexivity|];
     do 6 (split; [reflexivity|]);
     intros g b data_loader Hdata;
     cbv zeta in Htrain |- *;
     apply Htrain; [|reflexivity|reflexivity|exact Hdata];
     unfold supervised_ready; cbn;
     (split; [eauto|]; split; [eauto|]; split; [eauto|]; eauto)).
Qed.

(** ** The grad mode

    [in_mode b P m]: entered with torch's grad mode at [b], [m] leaves it at
    [b], however it ends, and puts out only events that satisfy [P]. *)

Definition in_mode (b : bool) (P : Event -> Prop) {A} (m : M Event World A)
    : Prop :=
  forall w, grad_enabled (env w) = b ->
    grad_enabled (env (post (m w))) = b /\ Forall P (out (m w)).

Section InMode.
Variable b : bool.
Variable P : Event -> Prop.

Lemma in_mode_ret {A} (a : A) : in_mode b P (ret a).
Proof. intros w H. by split; [|constructor]. Qed.

Lemma in_mode_raise {A} (e : Exn) : in_mode b P (@raise _ _ A e).
Proof. intros w H. by split; [|constructor]. Qed.

Lemma in_mode_get : in_mode b P get.
Proof. intros w H. by split; [|constructor]. Qed.

Lemma in_mode_getattr {A} (field : Trainer -> option A) :
  in_mode b P (getattr field).
Proof.
  intros w H. unfold getattr.
  destruct (field (self w)); by split; [|constructor].
Qed.

Lemma in_mode_update_self (f : Trainer -> Trainer) :
  in_mode b P (update_self f).
Proof. intros w H. by split; [|constructor]. Qed.

Lemma in_mode_emit (ev : Event) : P ev -> in_mode b P (emit ev).
Proof. intros Hev w H. split; [done|]. simpl. auto. Qed.

Lemma in_mode_bind {A B} (m : M Event World A) (k : A -> M Event World B) :
  in_mode b P m -> (forall a, in_mode b P (k a)) -> in_mode b P (bind m k).
Proof.
  intros Hm Hk w H. destruct (Hm w H) as [H1 H2]. unfold bind.
  destruct (res (m w)) as [a|e]; simpl; [|done].
  destruct (Hk a _ H1) as [H3 H4]. split; [done|]. by apply Forall_app.
Qed.

Lemma in_mode_lift {A} (m : Trainer -> M Event Env A) :
  (forall t e, grad_enabled (post (m t e)) = grad_enabled e) ->
  (forall t, emits P (m t)) -> in_mode b P (lift m).
Proof.
  intros Hg Hm w H. unfold lift. cbn [post env out]. split.
  - by rewrite Hg.
  - apply Hm.
Qed.

Lemma in_mode_call (ev : Trainer -> Event) :
  (forall t, P (ev t)) -> in_mode b P (lift (fun t => call (ev t))).
Proof.
  intros Hev. apply in_mode_lift.
  - intros t e. apply call_engine.
  - intros t e. by apply call_out.
Qed.

Lemma in_mode_for_each {A} (l : list A) (body : A -> M Event World unit) :
  (forall x, in_mode b P (body x)) -> in_mode b P (for_each l body).
Proof.
  intros Hb. induction l as [|x l IH]; simpl.
  - apply in_mode_ret.
  - apply in_mode_bind; [apply Hb | intros _; apply IH].
Qed.

Lemma in_mode_try_except {A} (body handler : M Event World A)
    (catches : Exn -> bool) :
  in_mode b P body -> in_mode b P handler ->
  in_mode b P (try_except body catches handler).
Proof.
  intros Hb Hh w H. destruct (Hb w H) as [H1 H2]. unfold try_except.
  destruct (res (body w)) as [a|e]; [done|].
  destruct (catches e); [|done]. simpl.
  destruct (Hh _ H1) as [H3 H4]. split; [done|]. by apply Forall_app.
Qed.

Lemma in_mode_try_finally {A} (body : M Event World A)
    (cleanup : M Event World unit) :
  in_mode b P body -> in_mode b P cleanup ->
  in_mode b P (try_finally body cleanup).
Proof.
  intros Hb Hc w H. destruct (Hb w H) as [H1 H2]. unfold try_finally. simpl.
  destruct (Hc _ H1) as [H3 H4]. split; [done|]. by apply Forall_app.
Qed.

(** A [with] block that keeps its own mode [b'] throughout is entered and
    left in any mode [b]. *)
Lemma in_mode_with_grad {A} (b' : bool) (m : M Event World A) :
  in_mode b' P m -> in_mode b P (with_grad b' m).
Proof.
  intros Hm w H. unfold with_grad. cbn [post env out]. split; [exact H|].
  by apply (Hm {| self := self w; env := set_grad_enabled b' (env w) |}).
Qed.

End InMode.

(** Whatever its block does to the grad mode, a [with] block restores the
    mode it was entered in. *)
Lemma in_mode_restored {A} (b b' : bool) (m : M Event World A) :
  in_mode b (fun _ => True) (with_grad b' m).
Proof.
  intros w H. unfold with_grad. cbn [post env out]. split; [exact H|].
  apply Forall_forall. done.
Qed.

Lemma scheduler_call_keeps_mode (s : SchedId) (e : Env) :
  grad_enabled
    (post ((call (EvSchedulerStep s) ;; update_engine (scheduler_step s)) e))
  = grad_enabled e.
Proof.
  unfold bind.
  destruct (res (call (EvSchedulerStep s) e)); cbn [post];
    [|apply (call_engine (E := Event))].
  unfold update_engine, modify. cbn [post set_engine grad_enabled].
  apply (call_engine (E := Event)).
Qed.

Lemma train_restores_mode (iteration : Iteration) (data_loader : list Batch)
    (b : bool) :
  in_mode b (fun _ => True) (train iteration data_loader).
Proof.
  unfold train.
  apply in_mode_bind; [apply in_mode_update_self|]. intros _.
  apply in_mode_bind; [by apply in_mode_call|]. intros _.
  apply in_mode_bind; [apply in_mode_restored|]. intros _.
  apply in_mode_bind; [apply in_mode_getattr|]. intros s.
  apply in_mode_bind; [|intros _; apply in_mode_update_self].
  destruct s as [|s|ss].
  - apply in_mode_ret.
  - apply in_mode_lift.
    + intros _ e. apply scheduler_call_keeps_mode.
    + intros _ e. apply Forall_forall. done.
  - apply in_mode_raise.
Qed.

Lemma test_restores_mode (iteration : Iteration) (data_loader : list Batch)
    (name : string) (b : bool) :
  in_mode b (fun _ => True) (test iteration data_loader name).
Proof.
  unfold test.
  apply in_mode_bind; [apply in_mode_update_self|]. intros _.
  apply in_mode_bind; [by apply in_mode_call|]. intros _.
  apply in_mode_restored.
Qed.

(** X10. Whatever the per-batch operation does, also to the grad mode
    itself, and however the call ends, [train], [test], the end-of-run
    dispatch and [run] leave torch's grad mode as they found it: the [with]
    blocks restore it on every exit. *)
Theorem grad_mode_is_restored (iteration : Iteration) (epochs : Z)
    (train_data test_data : list Batch) (name : string) (w : World) :
  grad_enabled (env (post (train iteration train_data w)))
  = grad_enabled (env w) /\
  grad_enabled (env (post (test iteration test_data name w)))
  = grad_enabled (env w) /\
  grad_enabled (env (post (_exit w))) = grad_enabled (env w) /\
  grad_enabled (env (post (run iteration epochs train_data test_data w)))
  = grad_enabled (env w).
Proof.
  split; [|split; [|split]].
  - by apply (train_restores_mode iteration train_data (grad_enabled (env w))).
  - by apply (test_restores_mode iteration test_data name
                (grad_enabled (env w))).
  - by apply (in_mode_restored (grad_enabled (env w)) false).
  - assert (H : in_mode (grad_enabled (env w)) (fun _ => True)
                  (run iteration epochs train_data test_data)).
    { unfold run, epochs_loop.
      apply in_mode_try_finally; [|by apply in_mode_emit].
      apply in_mode_try_except; [|by apply in_mode_emit].
      apply in_mode_bind; [|intros _; apply in_mode_restored].
      apply in_mode_for_each. intros ep.
      apply in_mode_bind; [apply train_restores_mode|]. intros _.
      apply test_restores_mode. }
    by apply H.
Qed.

(** [P] holds of the calls of the per-batch operation among the events. *)
Definition engine_calls (P : EngineEvent -> Prop) (ev : Event) : Prop :=
  match ev with
  | EvEngine x => P x
  | _ => True
  end.

Lemma in_mode__loop (iteration : Iteration) (P : bool -> EngineEvent -> Prop)
    (data_loader : list Batch) (name : string) (b : bool) :
  (forall t data e,
     grad_enabled (post (iteration t data e)) = grad_enabled e) ->
  (forall t data e, Forall (P (grad_enabled e)) (out (iteration t data e))) ->
  in_mode b (engine_calls (P b)) (_loop iteration data_loader name).
Proof.
  intros Hkeep Hout.
  assert (Hoff : forall (ev : Trainer -> Event),
            (forall t x, ev t <> EvEngine x) ->
            in_mode b (engine_calls (P b))
              (with_grad false (lift (fun t => call (ev t))))).
  { intros ev Hev w H. unfold with_grad, lift. cbn [post env out self].
    split; [exact H|]. apply call_out.
    destruct (ev (self w)) eqn:E; try exact I. by apply Hev in E. }
  unfold _loop.
  apply in_mode_bind; [by apply Hoff|]. intros _.
  apply in_mode_bind; [apply in_mode_get|]. intros w0.
  apply in_mode_bind.
  - apply in_mode_for_each. intros data.
    apply in_mode_bind.
    + unfold _iteration.
      apply in_mode_bind; [by apply Hoff|]. intros _.
      apply in_mode_bind.
      * intros w H. unfold lift, map_out. cbn [post env out]. split.
        -- by rewrite Hkeep.
        -- rewrite Forall_fmap. rewrite <- H.
           eapply Forall_impl; [apply Hout|]. done.
      * intros r. apply in_mode_bind.
        -- destruct r as [|[|x [|y [|]]]]; cbn [unpack_pair];
             first [apply in_mode_ret | apply in_mode_raise].
        -- intros lo. by apply Hoff.
    + intros _. apply in_mode_bind; [apply in_mode_get|]. intros w1.
      destruct (_is_train (self w1));
        [apply in_mode_update_self | apply in_mode_ret].
  - intros _ w H. unfold with_grad. cbn [post env out self]. split; [exact H|].
    unfold bind, getattr. cbn [self]. destruct (optimizer (self w)); [|done].
    cbn [ret res post out app lift env]. by apply call_out.
Qed.

(** X11. A per-batch operation that leaves the grad mode as it finds it is
    entered with gradient recording enabled throughout [train] and disabled
    throughout [test], whatever the mode of the caller: if its calls satisfy
    [P b] whenever it is entered in mode [b], then every call it makes
    under [train] satisfies [P true], and every call it makes under [test]
    satisfies [P false]. *)
Theorem per_batch_operation_runs_in_mode (iteration : Iteration)
    (P : bool -> EngineEvent -> Prop) (data_loader : list Batch)
    (name : string) (w : World) :
  (forall t data e,
     grad_enabled (post (iteration t data e)) = grad_enabled e) ->
  (forall t data e, Forall (P (grad_enabled e)) (out (iteration t data e))) ->
  Forall (engine_calls (P true)) (out (train iteration data_loader w)) /\
  Forall (engine_calls (P false)) (out (test iteration data_loader name w)).
Proof.
  intros Hkeep Hout. split.
  - assert (H : in_mode (grad_enabled (env w)) (engine_calls (P true))
                  (train iteration data_loader)).
    { unfold train.
      apply in_mode_bind; [apply in_mode_update_self|]. intros _.
      apply in_mode_bind; [by apply in_mode_call|]. intros _.
      apply in_mode_bind;
        [by apply in_mode_with_grad, in_mode__loop|]. intros _.
      apply in_mode_bind; [apply in_mode_getattr|]. intros s.
      apply in_mode_bind; [|intros _; apply in_mode_update_self].
      destruct s as [|s|ss].
      - apply in_mode_ret.
      - apply in_mode_lift.
        + intros _ e. apply scheduler_call_keeps_mode.
        + intros _ e. unfold bind.
          destruct (res (call (EvSchedulerStep (sched_id s)) e));
            cbn [out update_engine modify]; rewrite ?app_nil_r;
            by apply call_out.
      - apply in_mode_raise. }
    by apply H.
  - assert (H : in_mode (grad_enabled (env w)) (engine_calls (P false))
                  (test iteration data_loader name)).
    { unfold test.
      apply in_mode_bind; [apply in_mode_update_self|]. intros _.
      apply in_mode_bind; [by apply in_mode_call|]. intros _.
      by apply in_mode_with_grad, in_mode__loop. }
    by apply H.
Qed.

(** ** A malformed batch *)

(** From a calm world, [m] raises [e]; [Q] relates the view before and the
    view after, and [P] holds of the events. *)
Definition breaks {A} (m : M Event World A) (e : Exn)
    (Q : Trainer * Engine -> Trainer * Engine -> Prop) (P : Event -> Prop)
    : Prop :=
  forall w, calm w ->
    res (m w) = Raise e /\ Q (view w) (view (post (m w))) /\
    Forall P (out (m w)).

Lemma breaks_weaken {A} (m : M Event World A) (e : Exn)
    (Q Q' : Trainer * Engine -> Trainer * Engine -> Prop)
    (P P' : Event -> Prop) :
  breaks m e Q P -> (forall v v', Q v v' -> Q' v v') ->
  (forall ev, P ev -> P' ev) -> breaks m e Q' P'.
Proof.
  intros Hm HQ HP w Hw. destruct (Hm w Hw) as (Hr & Hv & Hev).
  split; [done|]. split; [by apply HQ|]. by eapply Forall_impl.
Qed.

Lemma breaks_bind_l {A B} (m : M Event World A) (k : A -> M Event World B)
    (e : Exn) (Q : Trainer * Engine -> Trainer * Engine -> Prop)
    (P : Event -> Prop) :
  breaks m e Q P -> breaks (bind m k) e Q P.
Proof.
  intros Hm w Hw. destruct (Hm w Hw) as (Hr & Hv & Hev).
  by rewrite (bind_res_raise _ _ _ _ Hr).
Qed.

Lemma breaks_bind_r {A B} (m : M Event World A) (k : A -> M Event World B)
    (e : Exn) (Q1 : Trainer * Engine -> A -> Trainer * Engine -> Prop)
    (Q2 : Trainer * Engine -> Trainer * Engine -> Prop) (P : Event -> Prop) :
  runs m Q1 -> (forall w, Forall P (out (m w))) ->
  (forall a, breaks (k a) e Q2 P) ->
  breaks (bind m k) e
    (fun v v'' => exists a v', Q1 v a v' /\ Q2 v' v'') P.
Proof.
  intros Hm Hev Hk w Hw. destruct (Hm w Hw) as (a & Ha & Hc & HQ).
  destruct (Hk a _ Hc) as (Hr & Hv & Hev').
  rewrite (bind_res_ok _ _ _ _ Ha). cbn [res post out].
  split; [done|]. split; [eauto|]. apply Forall_app. by split.
Qed.

Lemma breaks_with_grad {A} (b : bool) (m : M Event World A) (e : Exn)
    (Q : Trainer * Engine -> Trainer * Engine -> Prop) (P : Event -> Prop) :
  breaks m e Q P -> breaks (with_grad b m) e Q P.
Proof.
  intros Hm w [Hw1 Hw2].
  destruct (Hm {| self := self w; env := set_grad_enabled b (env w) |})
    as (Hr & Hv & Hev); [by split|].
  rewrite with_grad_res, with_grad_out. split; [done|]. split; [|done].
  exact Hv.
Qed.

(** Line 239: [input, target = self.to_device(data)] on a batch that is not
    a pair. *)
Lemma supervised_iteration_malformed (t : Trainer) (data : Batch) (e : Env) :
  length data <> 2 ->
  SupervisedTrainer_iteration t data e = raise ValueError e.
Proof.
  intros H. unfold SupervisedTrainer_iteration.
  by destruct data as [|a [|b [|c l]]].
Qed.

Lemma dispatch_out (b : bool) (ev : Trainer -> Event) (P : Event -> Prop)
    (w : World) :
  (forall t, P (ev t)) ->
  Forall P (out (with_grad b (lift (fun t => call (ev t))) w)).
Proof.
  intros H. destruct (dispatch_frame b ev w) as (_ & _ & Hout).
  eapply Forall_impl; [exact Hout|]. by intros x ->.
Qed.

Lemma breaks_loop_body (name : string) (data : Batch) :
  length data <> 2 ->
  breaks (loop_body SupervisedTrainer_iteration name data) ValueError
    (fun v v' => v' = v) iteration_event.
Proof.
  intros Hlen. unfold loop_body. apply breaks_bind_l. unfold _iteration.
  eapply (breaks_weaken _ _ _ _ iteration_event).
  - eapply breaks_bind_r; [apply runs_with_grad, runs_call| |].
    + intros w. by apply dispatch_out.
    + intros _. apply breaks_bind_l.
      instantiate (1 := fun v v' => v' = v).
      intros w Hw. unfold lift, map_out.
      rewrite supervised_iteration_malformed by done. by split.
  - intros v v' (a & v1 & -> & ->). done.
  - done.
Qed.

Lemma breaks_for_each (good rest : list Batch) (bad : Batch) (name : string) :
  Forall (fun data => length data = 2) good -> length bad <> 2 ->
  breaks (for_each (good ++ bad :: rest)
            (loop_body SupervisedTrainer_iteration name)) ValueError
    (fun v v' =>
       v' = foldl (fun v data => (stepped 1 v.1, batch_update v.1 v.2 data))
              v good)
    iteration_event.
Proof.
  intros Hgood Hbad. induction Hgood as [|data good Hdata _ IH].
  - cbn [app for_each foldl]. by apply breaks_bind_l, breaks_loop_body.
  - cbn [app for_each foldl].
    eapply (breaks_weaken _ _ _ _ iteration_event).
    + eapply breaks_bind_r; [by apply runs_loop_body| |intros _; apply IH].
      intros w. by apply (respects_loop_body _ name data w).
    + intros v v' (a & v1 & -> & ->). done.
    + done.
Qed.

(** The events of an epoch of [train] that has not reached its end. *)
Definition before_end_of_epoch (ev : Event) : Prop :=
  match ev with
  | EvModelTrain | EvStartEpoch _ | EvStartIteration _ | EvEndIteration _
  | EvEngine _ => True
  | _ => False
  end.

Definition is_scheduler_step (ev : Event) : bool :=
  match ev with EvSchedulerStep _ => true | _ => false end.

Lemma breaks__loop (good rest : list Batch) (bad : Batch) (name : string) :
  Forall (fun data => length data = 2) good -> length bad <> 2 ->
  breaks (_loop SupervisedTrainer_iteration (good ++ bad :: rest) name)
    ValueError
    (fun v v' =>
       v' = (stepped (length good) v.1, foldl (batch_update v.1) v.2 good))
    before_end_of_epoch.
Proof.
  intros Hgood Hbad w Hw. rewrite _loop_unfold. revert w Hw.
  change (breaks
            (dispatch_start_epoch name ;;
             for_each (good ++ bad :: rest)
               (loop_body SupervisedTrainer_iteration name) ;;
             dispatch_end_epoch (length (good ++ bad :: rest)) name)
            ValueError
            (fun v v' =>
               v' = (stepped (length good) v.1,
                     foldl (batch_update v.1) v.2 good))
            before_end_of_epoch).
  eapply (breaks_weaken _ _ _ _ before_end_of_epoch).
  - eapply breaks_bind_r; [apply runs_with_grad, runs_call| |].
    + intros w. by apply dispatch_out.
    + intros _. apply breaks_bind_l.
      eapply breaks_weaken; [by apply breaks_for_each| |].
      * intros v v' H. exact H.
      * by intros [].
  - intros [t g] v' (a & v1 & -> & ->). apply foldl_loop_body.
  - done.
Qed.

(** X12. A batch that is not a pair stops [train] on the supervised
    trainer: with no fault scheduled, [ValueError] is raised when the batch
    is unpacked.  The batches before it have been trained on, in order, and
    counted by the step counter; the batch itself and those after it leave
    the engine untouched; the epoch is not ended: no [end_epoch] dispatch,
    no scheduler step, and the epoch counter is not advanced. *)
Theorem malformed_batch_stops_training (good rest : list Batch) (bad : Batch)
    (w : World) :
  calm w ->
  Forall (fun data => length data = 2) good ->
  length bad <> 2 ->
  let o := train SupervisedTrainer_iteration (good ++ bad :: rest) w in
  res o = Raise ValueError /\
  _step (self (post o)) = (_step (self w) + Z.of_nat (length good))%Z /\
  _epoch (self (post o)) = _epoch (self w) /\
  engine (env (post o))
  = foldl (batch_update (set__is_train true (self w))) (engine (env w)) good /\
  count is_end_epoch (out o) = 0 /\
  count is_scheduler_step (out o) = 0.
Proof.
  intros Hw Hgood Hbad.
  assert (H : breaks (train SupervisedTrainer_iteration (good ++ bad :: rest))
                ValueError
                (fun v v' =>
                   v' = (stepped (length good) (set__is_train true v.1),
                         foldl (batch_update (set__is_train true v.1)) v.2
                           good))
                before_end_of_epoch).
  { unfold train. eapply (breaks_weaken _ _ _ _ before_end_of_epoch).
    - eapply breaks_bind_r.
      { apply (runs_update_self (set__is_train true)). intros t.
        apply supervised_ready_set__is_train. }
      { intros w'. constructor. }
      intros _.
      eapply breaks_bind_r;
        [apply (runs_call (fun _ => EvModelTrain))| |].
      { intros w'. unfold lift. cbn [out]. by apply call_out. }
      intros _. apply breaks_bind_l.
      by apply breaks_with_grad, breaks__loop.
    - intros [t g] v' (a1 & v1 & -> & a2 & v2 & -> & ->). done.
    - done. }
  cbv zeta. destruct (H w Hw) as (Hres & Hview & Hev).
  set (o := train SupervisedTrainer_iteration (good ++ bad :: rest) w) in *.
  pose proof (f_equal fst Hview) as Hself.
  pose proof (f_equal snd Hview) as Hengine.
  cbn [view fst snd] in Hself, Hengine.
  split; [exact Hres|]. rewrite Hself, Hengine.
  unfold stepped. cbn [_is_train set__is_train _step _epoch set__step].
  split; [done|]. split; [done|]. split; [done|]. split.
  - apply count_none. eapply Forall_impl; [exact Hev|]. by intros [].
  - apply count_none. eapply Forall_impl; [exact Hev|]. by intros [].
Qed.

Lemma _scheduler_stepped (k : nat) (t : Trainer) :
  _scheduler (stepped k t) = _scheduler t.
Proof. unfold stepped. by destruct (_is_train t). Qed.

Lemma call_ok_out {E} (ev : E) (e : Env) :
  res (call ev e) = Ok tt -> out (call ev e) = [ev].
Proof.
  intros H. destruct (call_cases ev e) as [[_ Ho]|(x & Hx & _)]; [done|].
  congruence.
Qed.

(** X13. A call to [train] that returns normally has made, in this order:
    the [model.train()] call, the [start_epoch] dispatch, the events of the
    batches (one [start_iteration] and one [end_iteration] dispatch for each
    batch), the [end_epoch] dispatch, and then one scheduler step when a
    scheduler is set, none when it is [None].  The [end_epoch] context
    carries the epoch counter as it was before the call: the counter is
    advanced last. *)
Theorem train_dispatches_in_order (iteration : Iteration)
    (data_loader : list Batch) (w : World) :
  let o := train iteration data_loader w in
  let n := length data_loader in
  res o = Ok tt ->
  exists opt s body,
    optimizer (self w) = Some opt /\
    _scheduler (self w) = Some s /\
    (forall ss, s <> SchedDict ss) /\
    out o
    = EvModelTrain
      :: EvStartEpoch
           (dict_update (start_epoch_fixed (self w) TRAIN)
              (_start_epoch (self w)))
      :: body
      ++ EvEndEpoch
           (dict_update (end_epoch_fixed (self w) opt TRAIN n)
              (_end_epoch (self w)))
      :: match s with
         | SingleSched x => [EvSchedulerStep (sched_id x)]
         | _ => []
         end /\
    Forall iteration_event body /\
    count is_start_iteration body = n /\
    count is_end_iteration body = n.
Proof.
  cbv zeta. unfold train. rewrite bind_update_self.
  set (w1 := {| self := set__is_train true (self w); env := env w |}).
  intros H.
  apply bind_ok_post in H as ([] & H1 & H & _ & ->).
  apply bind_ok_post in H as ([] & H3 & H & _ & ->).
  apply bind_ok_post in H as (s & H4 & H & _ & ->).
  apply bind_ok_post in H as ([] & H5 & H & _ & ->).
  set (w2 := post (lift (fun _ => call EvModelTrain) w1)) in *.
  assert (Ho1 : out (lift (fun _ => call EvModelTrain) w1) = [EvModelTrain]).
  { unfold lift in H1 |- *. cbn [res out] in *. by apply call_ok_out. }
  rewrite Ho1. rewrite with_grad_res in H3. rewrite with_grad_out.
  set (w2' := {| self := self w2; env := set_grad_enabled true (env w2) |})
    in *.
  destruct (_loop_trace iteration data_loader TRAIN w2' (or_introl H3))
    as (opt & body & Hopt & Hout & Hev & Hc1 & Hc2 & _).
  destruct (_loop_self iteration data_loader TRAIN w2') as (k & _ & Hk & _).
  set (w3 := post (with_grad true (_loop iteration data_loader TRAIN) w2))
    in *.
  assert (Hself3 : self w3 = stepped k (self w2')).
  { unfold w3. rewrite with_grad_self. exact Hk. }
  unfold getattr in H4, H5, H |- *.
  destruct (_scheduler (self w3)) as [s'|] eqn:Hs; [|discriminate].
  cbn [ret res post out] in H4, H5, H |- *. injection H4 as ->.
  rewrite Hself3, _scheduler_stepped in Hs.
  exists opt, s, body.
  split; [exact Hopt|]. split; [exact Hs|].
  assert (Hsched : (forall ss, s <> SchedDict ss) /\
            out (match s with
                 | NoScheduler => ret ()
                 | SingleSched x =>
                     lift (fun _ =>
                             call (EvSchedulerStep (sched_id x)) ;;
                             update_engine (scheduler_step (sched_id x)))
                 | SchedDict _ => raise AttributeError
                 end w3)
            = match s with
              | SingleSched x => [EvSchedulerStep (sched_id x)]
              | _ => []
              end).
  { destruct s as [|x|ss]; [done| |discriminate]. split; [done|].
    unfold lift in H5 |- *. cbn [res out] in H5 |- *.
    apply bind_ok_post in H5 as ([] & Hcall & _ & _ & ->).
    by rewrite (call_ok_out _ _ Hcall). }
  destruct Hsched as [Hnd Ho5]. split; [exact Hnd|].
  split; [|by repeat split].
  rewrite Ho5, Hout. cbn [update_self modify out app]. rewrite app_nil_r.
  rewrite <- app_assoc. reflexivity.
Qed.

End Properties.

(** * The definitions at work *)

#[local] Existing Instance toy_torch.
#[local] Existing Instance toy_vocabulary.

Definition toy_iteration : Iteration := SupervisedTrainer_iteration.

(** The scenario of three batches: [train] advances the step counter by 3
    and the epoch counter by 1. *)
Lemma train_test_counters_witness :
  _step (self (post (train toy_iteration toy_data (toy_world None)))) = 3%Z /\
  _epoch (self (post (train toy_iteration toy_data (toy_world None)))) = 1%Z.
Proof.
  destruct (@train_test_counters toy_torch toy_vocabulary toy_iteration
              toy_data "test" (toy_world None)) as [H _].
  apply H. vm_compute. reflexivity.
Defined.

(** A run of one epoch interrupted in its first batch: the notice is
    printed, the dispatcher is closed once, [end_all] is not dispatched and
    [run] returns. *)
Example run_interrupted_mid_epoch :
  let o := run toy_iteration 1 toy_data toy_data (toy_world (interrupt_at 4)) in
  res o = Ok tt /\ count is_close (out o) = 1 /\ count is_notice (out o) = 1 /\
  count is_end_all (out o) = 0 /\ count is_end_epoch (out o) = 0.
Proof. vm_compute. by repeat split. Qed.

Example run_completes :
  let o := run toy_iteration 2 toy_data toy_data (toy_world None) in
  res o = Ok tt /\ count is_close (out o) = 1 /\ count is_notice (out o) = 0 /\
  count is_end_all (out o) = 1 /\ count is_end_epoch (out o) = 4 /\
  _step (self (post o)) = 6%Z /\ _epoch (self (post o)) = 2%Z.
Proof. vm_compute. by repeat split. Qed.

Lemma end_all_only_after_all_epochs_witness :
  let o := run toy_iteration 1 toy_data toy_data (toy_world (interrupt_at 4)) in
  count is_end_all (out o) = 0 /\ count is_close (out o) = 1 /\ res o = Ok tt.
Proof.
  destruct (@end_all_only_after_all_epochs toy_torch toy_vocabulary
              toy_iteration 1 toy_data toy_data (toy_world (interrupt_at 4)))
    as (_ & _ & _ & H).
  destruct (H KeyboardInterrupt) as (H1 & H2 & H3);
    [vm_compute; reflexivity|].
  split; [exact H1|]. split; [exact H2|]. exact (H3 eq_refl).
Defined.

Lemma supervised_iteration_returns_loss_output_witness :
  res (toy_iteration toy_trainer [1%Z; 2%Z] (toy_env None))
  = Ok (RetTuple [4%Z; 6%Z]).
Proof.
  destruct (@supervised_iteration_returns_loss_output toy_torch toy_trainer
              1%Z 2%Z (toy_env None) 0 0 eq_refl eq_refl eq_refl) as [_ H].
  destruct (H {| optim_id := 1; optim_model := SingleModel 0 |}
              eq_refl eq_refl) as [Hres _].
  exact Hres.
Defined.

(** The optimizer dict has a key that the model dict lacks. *)
Lemma configuration_errors_fail_witness :
  res (TrainerBase_init
         (toy_args (ArgModelDict [("a", 0)])
            (ArgOptimizerDict [("a", 1); ("b", 2)]) ArgSchedulerNone []) tt)
  = Raise TypeError.
Proof.
  apply (@configuration_errors_fail toy_torch).
  left. exists [("a", 0)], [("a", 1); ("b", 2)].
  split; [reflexivity|]. split; [reflexivity|].
  exists "b". left.
  split; apply (bool_decide_unpack _); vm_compute; exact I.
Defined.

(** The context dispatched at the end of the iteration on the batch (1, 2). *)
Definition toy_end_ctx : gmap string (@Value toy_torch) :=
  dict_update
    (@end_iteration_fixed toy_torch toy_vocabulary toy_trainer
       [1%Z; 2%Z] "train" 4%Z 6%Z) ∅.

Lemma end_iteration_reports_loss_witness :
  toy_end_ctx !! "loss" = Some (VScalar (4%Z : @Scalar toy_torch)).
Proof.
  destruct (@end_iteration_reports_loss toy_torch toy_vocabulary "train"
              1%Z 2%Z (toy_world None) toy_end_ctx)
    as (m & f & Hm & Hf & _ & _ & H & _).
  { vm_compute. do 6 apply list_elem_of_further. apply list_elem_of_here. }
  injection Hm as <-. injection Hf as <-.
  apply H. reflexivity.
Defined.

Lemma registered_start_epoch_persists_witness :
  Forall (start_epoch_has "tag" (VStr "X"))
    (exec_ops toy_iteration [OpTrain toy_data; OpTest toy_data "test"]
       (post (register_start_epoch "tag" (VStr "X") (toy_world None)))).2.
Proof.
  destruct (@registered_start_epoch_persists toy_torch toy_vocabulary
              toy_iteration "tag" (VStr "X")
              [OpTrain toy_data; OpTest toy_data "test"] (toy_world None))
    as (_ & H & _).
  apply H. repeat constructor.
Defined.

Lemma unknown_optimizer_leaves_attribute_unset_witness :
  exists t,
    res (TrainerBase_init
           (toy_args (ArgModule 0) ArgOptimizerOther ArgSchedulerNone []) tt)
    = Ok t /\ optimizer t = None.
Proof.
  destruct (@unknown_optimizer_leaves_attribute_unset toy_torch
              (toy_args (ArgModule 0) ArgOptimizerOther ArgSchedulerNone [])
              eq_refl) as (_ & H & _).
  apply (H 0); [reflexivity | by left |].
  split; constructor.
Defined.

(** With a [Scheduler], an optimizer argument of another kind is not
    accepted silently: construction raises [AttributeError]. *)
Lemma unknown_optimizer_with_scheduler_fails :
  res (TrainerBase_init
         (toy_args (ArgModule 0) ArgOptimizerOther (ArgScheduler 2) []) tt)
  = Raise AttributeError.
Proof. reflexivity. Qed.

(** Called directly, the base [iteration] raises nothing, and not
    [NotImplementedError]. *)
Lemma base_iteration_raises_nothing :
  res (@TrainerBase_iteration toy_torch toy_trainer [1%Z; 2%Z] (toy_env None))
  = Ok RetNone /\
  res (@TrainerBase_iteration toy_torch toy_trainer [1%Z; 2%Z] (toy_env None))
  <> Raise NotImplementedError.
Proof. split; [reflexivity | discriminate]. Qed.

Lemma base_iteration_returns_none_witness :
  exists x,
    res (_iteration TrainerBase_iteration [1%Z; 2%Z] "train" (toy_world None))
    = Raise x /\ x = TypeError.
Proof.
  destruct (@base_iteration_returns_none toy_torch toy_vocabulary toy_trainer
              [1%Z; 2%Z] (toy_env None)
              (toy_args (ArgModule 0) (ArgOptimizer 1) ArgSchedulerNone [])
              "train" (toy_world None)) as (_ & _ & x & Hx & H).
  exists x. split; [exact Hx | exact (H eq_refl)].
Defined.

(** Three batches through the toy engine: the first step moves the
    parameter from 5 to 1, where the loss of the other two batches is 0. *)
Lemma train_folds_batches_witness :
  engine (env (post (train toy_iteration toy_data (toy_world None))))
  = ((1, 0)%Z : Engine).
Proof.
  destruct (@train_folds_batches toy_torch toy_vocabulary toy_data
              (toy_world None)) as [_ H].
  - split; [reflexivity|]. repeat split; eauto.
  - repeat constructor.
  - exact H.
Defined.

Lemma run_advances_counters_witness :
  _step (self (post (run toy_iteration 2 toy_data toy_data (toy_world None))))
  = 6%Z /\
  _epoch (self (post (run toy_iteration 2 toy_data toy_data (toy_world None))))
  = 2%Z.
Proof.
  destruct (@run_advances_counters toy_torch toy_vocabulary toy_iteration 2
              toy_data toy_data (toy_world None)) as (Hs & He & _).
  - vm_compute. reflexivity.
  - split; [exact Hs | exact He].
Defined.

(** The trainer that construction leaves when the optimizer argument is of
    an unknown kind. *)
Definition toy_world_without_optimizer : World :=
  {| self := {| _device := "cpu";
                model := SingleModel 0;
                _is_single_model := true;
                optimizer := None;
                _scheduler := Some NoScheduler;
                loss_f := LossCallable 0;
                _callbacks := [];
                _step := 0;
                _epoch := 0;
                _verb := true;
                _is_train := true;
                kwattrs := ∅;
                _start_iteration := ∅;
                _end_iteration := ∅;
                _start_epoch := ∅;
                _end_epoch := ∅;
                _end_all := ∅ |};
     env := toy_env None |}.

Lemma unset_optimizer_cannot_finish_an_epoch_witness :
  count is_end_epoch
    (out (test toy_iteration toy_data "test" toy_world_without_optimizer)) = 0
  /\ res (_exit toy_world_without_optimizer) = Raise AttributeError.
Proof.
  destruct (@unset_optimizer_cannot_finish_an_epoch toy_torch toy_vocabulary
              toy_iteration toy_data "test" toy_world_without_optimizer
              eq_refl) as (_ & (_ & Hc) & (Hr & _)).
  split; [exact Hc | exact Hr].
Defined.

(** An epoch of three batches in evaluation mode: the [end_epoch] context
    counts three iterations. *)
Lemma epoch_dispatches_in_order_witness :
  exists opt body,
    out (_loop toy_iteration toy_data "test" (toy_world None))
    = EvStartEpoch
        (dict_update (start_epoch_fixed toy_trainer "test") ∅)
      :: body
      ++ [EvEndEpoch (dict_update (end_epoch_fixed toy_trainer opt "test" 3) ∅)]
    /\ count is_end_iteration body = 3.
Proof.
  destruct (@epoch_dispatches_in_order toy_torch toy_vocabulary toy_iteration
              toy_data "test" (toy_world None))
    as (opt & body & _ & Hout & _ & _ & Hc & _).
  - left. vm_compute. reflexivity.
  - exists opt, body. split; [exact Hout | exact Hc].
Defined.

(** A keyword argument under a fresh name is stored; one under the name of a
    registry is accepted and replaced by the empty registry. *)
Definition toy_kwargs : list (string * @Value toy_torch) :=
  [("lr", VInt 3); ("_start_epoch", VInt 7)].

Lemma keyword_arguments_are_stored_witness :
  exists t,
    res (TrainerBase_init
           (toy_args (ArgModule 0) (ArgOptimizer 1) ArgSchedulerNone toy_kwargs)
           tt) = Ok t /\
    kwattrs t !! "lr" = Some (VInt 3) /\
    kwattrs t !! "_start_epoch" = None /\
    _start_epoch t = ∅.
Proof.
  destruct (res (TrainerBase_init
                   (toy_args (ArgModule 0) (ArgOptimizer 1) ArgSchedulerNone
                      toy_kwargs) tt)) as [t|e] eqn:E;
    [|vm_compute in E; discriminate E].
  exists t. split; [reflexivity|].
  destruct (keyword_arguments_are_stored _ t E) as (H & _ & _ & _ & Hr & _).
  destruct (H "lr" (VInt 3)) as [_ H1]; [apply list_elem_of_here|].
  destruct (H "_start_epoch" (VInt 7)) as [_ H2];
    [apply list_elem_of_further, list_elem_of_here|].
  split; [exact H1|]. split; [exact H2 | exact Hr].
Defined.

(** A trainer built with a scheduler, then trained on three batches. *)
Lemma constructed_trainer_trains_witness :
  exists t,
    res (new SupervisedTrainer
           (toy_args (ArgModule 0) (ArgOptimizer 1) (ArgScheduler 2) []) tt)
    = Ok t /\
    res (train SupervisedTrainer_iteration toy_data
           {| self := t; env := toy_env None |}) = Ok tt.
Proof.
  destruct (constructed_trainer_trains
              (toy_args (ArgModule 0) (ArgOptimizer 1) (ArgScheduler 2) [])
              0 1 0 eq_refl eq_refl eq_refl)
    as (t & Hres & _ & _ & _ & _ & _ & _ & _ & Htrain).
  - right. by exists 2.
  - split; constructor.
  - exists t. split; [exact Hres|].
    destruct (Htrain (5%Z, 0%Z) true toy_data) as [H _];
      [repeat constructor | exact H].
Defined.

(** A per-batch operation that reports the grad mode it is entered in. *)
Definition probe_iteration : Iteration :=
  fun _ data e =>
    (call (EvOther (if grad_enabled e then 1 else 0)) ;;
     ret (RetTuple data)) e.

Lemma per_batch_operation_runs_in_mode_witness :
  Forall (engine_calls (eq (EvOther 1)))
    (out (train probe_iteration toy_data (toy_world None))) /\
  Forall (engine_calls (eq (EvOther 0)))
    (out (test probe_iteration toy_data "test" (toy_world None))).
Proof.
  apply (per_batch_operation_runs_in_mode probe_iteration
           (fun b x => EvOther (if b then 1 else 0) = x)).
  - intros t data e. unfold probe_iteration, bind.
    destruct (res (call _ e)); apply call_engine.
  - intros t data e. unfold probe_iteration, bind.
    destruct (res (call _ e)); cbn [out ret]; rewrite ?app_nil_r;
      by apply call_out.
Defined.

(** The second of three batches has one tensor only. *)
Lemma malformed_batch_stops_training_witness :
  res (train toy_iteration [[1%Z; 2%Z]; [3%Z]; [5%Z; 6%Z]] (toy_world None))
  = Raise ValueError /\
  _step (self (post (train toy_iteration [[1%Z; 2%Z]; [3%Z]; [5%Z; 6%Z]]
                       (toy_world None)))) = 1%Z.
Proof.
  destruct (@malformed_batch_stops_training toy_torch toy_vocabulary
              [[1%Z; 2%Z]] [[5%Z; 6%Z]] [3%Z]
              (toy_world None)) as (Hr & Hs & _).
  - split; [reflexivity|]. repeat split; eauto.
  - repeat constructor.
  - discriminate.
  - split; [exact Hr | exact Hs].
Defined.

Lemma train_dispatches_in_order_witness :
  exists opt s body,
    _scheduler toy_trainer = Some s /\
    out (train toy_iteration toy_data (toy_world None))
    = EvModelTrain
      :: EvStartEpoch (dict_update (start_epoch_fixed toy_trainer TRAIN) ∅)
      :: body
      ++ EvEndEpoch (dict_update (end_epoch_fixed toy_trainer opt TRAIN 3) ∅)
      :: match s with
         | SingleSched x => [EvSchedulerStep (sched_id x)]
         | _ => []
         end /\
    count is_end_iteration body = 3.
Proof.
  destruct (train_dispatches_in_order toy_iteration toy_data (toy_world None))
    as (opt & s & body & _ & Hs & _ & Hout & _ & _ & Hc).
  - vm_compute. reflexivity.
  - exists opt, s, body. split; [exact Hs|]. split; [exact Hout | exact Hc].
Defined.
